(** * Principal Coordinate Analysis: [pcoa] and [_fsvd]

    A shallow embedding of
    [skbio/stats/ordination/_principal_coordinate_analysis.py].

    - Arrays are row-major lists; the element type is an interface
      ([Scalar]), instantiated with IEEE binary64 ([float]), what the
      Python code computes with.
    - The numeric collaborators that live outside the file
      ([center_distance_matrix_optimized], [eigh], [qr], [svd],
      [standard_normal], the [DistanceMatrix] constructor) are the fields
      of an interface ([Backend]); the factorisations can raise.
    - Exceptions and the observable steps (calls of the collaborators,
      the warning) are threaded through a writer/error monad [M]. *)

From Stdlib Require Import String Ascii DecimalString DecimalNat.
From Stdlib Require Import ZArith Lia Bool PrimFloat.
From Stdlib Require Import List Permutation Sorted.
Import ListNotations.
Local Open Scope string_scope.
Local Open Scope list_scope.
Local Open Scope nat_scope.

Set Implicit Arguments.

(** ** Scalars *)

(** The operations the module applies to array elements. [fisclose] is
    [np.isclose] with its default tolerances. *)
Class Scalar (F : Type) : Type := {
  fzero : F;
  fadd : F -> F -> F;
  fmul : F -> F -> F;
  fdiv : F -> F -> F;
  fsqrt : F -> F;
  fleb : F -> F -> bool;
  fltb : F -> F -> bool;
  fisclose : F -> F -> bool
}.

(** ** Errors, events and the monad *)

(** The exceptions that can leave [pcoa]. *)
Inductive error : Type :=
| DistanceMatrixError
| ValueError_method_not_supported (method : string)
| ValueError_expects_square
| ValueError_negative_dimensions
| ValueError_length_mismatch
| ValueError_not_finite
| LinAlgError.

(** The steps of a run that an observer can tell apart. *)
Inductive event (F : Type) : Type :=
| EvCenter
| EvEigh
| EvStandardNormal
| EvQR
| EvSVD
| EvWarn (smallest largest : F).

Arguments EvCenter {F}.
Arguments EvEigh {F}.
Arguments EvStandardNormal {F}.
Arguments EvQR {F}.
Arguments EvSVD {F}.

Definition M (F A : Type) : Type := (list (event F) * (error + A))%type.

Definition ret {F A : Type} (a : A) : M F A := ([], inr a).

Definition bind {F A B : Type} (c : M F A) (k : A -> M F B) : M F B :=
  match c with
  | (t, inl e) => (t, inl e)
  | (t, inr a) => let (t', r) := k a in (t ++ t', r)
  end.

Definition raise {F A : Type} (e : error) : M F A := ([], inl e).

Definition tell {F : Type} (ev : event F) : M F unit := ([ev], inr tt).

Definition lift {F A : Type} (r : error + A) : M F A := ([], r).

Declare Scope pcoa_scope.
Delimit Scope pcoa_scope with pcoa.
Notation "x <- c ;; k" := (bind c (fun x => k))
  (at level 61, c at next level, right associativity) : pcoa_scope.
Notation "' p <- c ;; k" := (bind c (fun x => let p := x in k))
  (at level 61, p pattern, c at next level, right associativity) : pcoa_scope.
Notation "c ;; k" := (bind c (fun _ => k))
  (at level 61, right associativity) : pcoa_scope.
Local Open Scope pcoa_scope.

Definition trace {F A : Type} (c : M F A) : list (event F) := fst c.
Definition outcome {F A : Type} (c : M F A) : error + A := snd c.

(** ** Python and NumPy helpers *)

(** [l[:d]] for a Python integer [d]: a negative bound counts from the
    end. *)
Definition slice_upto {A : Type} (d : Z) (l : list A) : list A :=
  if (0 <=? d)%Z then firstn (Z.to_nat d) l
  else firstn (length l - Z.to_nat (- d)) l.

(** [range(a, b)] has [max 0 (b - a)] elements. *)
Definition range_len (a b : Z) : nat := Z.to_nat (b - a).

(** 1-D and 2-D arrays; a 2-D array is the list of its rows. *)
Definition vector (F : Type) : Type := list F.
Definition matrix (F : Type) : Type := list (list F).

Section Arrays.
Context {F : Type} {SF : Scalar F}.

Definition nrows (A : matrix F) : nat := length A.
Definition ncols (A : matrix F) : nat :=
  match A with
  | [] => 0
  | r :: _ => length r
  end.

Definition has_shape (A : matrix F) (r c : nat) : Prop :=
  length A = r /\ Forall (fun row => length row = c) A.

Definition col (j : nat) (A : matrix F) : vector F :=
  map (fun r => nth j r fzero) A.

Definition transpose (A : matrix F) : matrix F :=
  map (fun j => col j A) (seq 0 (ncols A)).

(** [v.sum()], added from left to right. *)
Definition vsum (v : vector F) : F := fold_left fadd v fzero.

Fixpoint map2 (f : F -> F -> F) (u v : vector F) : vector F :=
  match u, v with
  | a :: u', b :: v' => f a b :: map2 f u' v'
  | _, _ => []
  end.

Definition vdot (u v : vector F) : F := vsum (map2 fmul u v).

(** [numpy.dot] of two 2-D arrays. *)
Definition dot (A B : matrix F) : matrix F :=
  map (fun r => map (fun j => vdot r (col j B)) (seq 0 (ncols B))) A.

(** [numpy.hstack((A, B))]. *)
Fixpoint hstack (A B : matrix F) : matrix F :=
  match A, B with
  | r :: A', s :: B' => (r ++ s) :: hstack A' B'
  | _, _ => []
  end.

(** [numpy.linalg.norm] of a 1-D array. *)
Definition norm (v : vector F) : F := fsqrt (vsum (map (fun x => fmul x x) v)).

(** [v.min()] and [v.max()]. *)
Definition vmin (v : vector F) : F :=
  match v with
  | [] => fzero
  | a :: v' => fold_left (fun m x => if fleb x m then x else m) v' a
  end.

Definition vmax (v : vector F) : F :=
  match v with
  | [] => fzero
  | a :: v' => fold_left (fun m x => if fleb m x then x else m) v' a
  end.

(** [v.argsort()]: indices that put [v] in ascending order. NumPy's
    default sort leaves the order of equal keys open; here each index is
    inserted into the sorted indices after it, before the keys that are
    not smaller. The facts proved about it are that the result is a
    permutation of the indices and that it sorts [v], which hold for
    every order of equal keys. *)
Fixpoint insert_idx (key : nat -> F) (i : nat) (l : list nat) : list nat :=
  match l with
  | [] => [i]
  | j :: l' =>
      if fleb (key i) (key j) then i :: l else j :: insert_idx key i l'
  end.

Definition argsort (v : vector F) : list nat :=
  fold_right (insert_idx (fun i => nth i v fzero)) [] (seq 0 (length v)).

(** [v[idx]] for an index array. *)
Definition take (idx : list nat) (v : vector F) : vector F :=
  map (fun i => nth i v fzero) idx.

(** [(mask).sum()] for the mask [f v]. *)
Definition count (f : F -> bool) (v : vector F) : nat := length (filter f v).

(** [v[p:] = 0]. *)
Definition zero_from (p : nat) (v : vector F) : vector F :=
  firstn p v ++ repeat fzero (length v - p).

End Arrays.

(** ** The collaborators *)

(** What the [DistanceMatrix] constructor is given: the data and the
    ids. *)
Record DistanceMatrix (F : Type) : Type := {
  dm_data : matrix F;
  dm_ids : list string
}.

(** A [pandas.Series] and a [pandas.DataFrame]. *)
Record Series (F : Type) : Type := {
  s_index : list string;
  s_values : vector F
}.

Record DataFrame (F : Type) : Type := {
  df_index : list string;
  df_columns : list string;
  df_values : matrix F
}.

Record OrdinationResults (F : Type) : Type := {
  short_method_name : string;
  long_method_name : string;
  eigvals : Series F;
  samples : DataFrame F;
  proportion_explained : Series F
}.

(** The functions [pcoa] and [_fsvd] import. [DistanceMatrix_valid] is
    the validation of the [DistanceMatrix] constructor; [svd] is called
    with [full_matrices=False]; [standard_normal n k] is the draw of the
    generator for [size=(n, k)]. The three factorisations either return
    or raise: [eigh] a [ValueError] on an array that is not finite,
    all of them a [LinAlgError] when the iteration does not converge. *)
Class Backend (F : Type) : Type := {
  DistanceMatrix_valid : DistanceMatrix F -> bool;
  center_distance_matrix_optimized : matrix F -> matrix F;
  eigh : matrix F -> error + (vector F * matrix F);
  standard_normal : nat -> nat -> matrix F;
  qr : matrix F -> error + (matrix F * matrix F);
  svd : matrix F -> error + (matrix F * vector F * matrix F)
}.

Section Pcoa.
Context {F : Type} {SF : Scalar F} {BF : Backend F}.

(** [pd.Series(values, index=index)] and
    [pd.DataFrame(values, index=index, columns=columns)]: both raise a
    [ValueError] when the labels do not fit the data. *)
Definition pd_Series (values : vector F) (index : list string) :
  error + Series F :=
  if length values =? length index
  then inr {| s_index := index; s_values := values |}
  else inl ValueError_length_mismatch.

Definition pd_DataFrame (values : matrix F) (index columns : list string) :
  error + DataFrame F :=
  if (nrows values =? length index)
     && forallb (fun r => length r =? length columns) values
  then inr {| df_index := index; df_columns := columns; df_values := values |}
  else inl ValueError_length_mismatch.

(** [standard_normal(size=(n, k))]: NumPy refuses a negative size. *)
Definition draw_standard_normal (n : nat) (k : Z) : M F (matrix F) :=
  if (k <? 0)%Z then raise ValueError_negative_dimensions
  else tell EvStandardNormal ;; ret (standard_normal n (Z.to_nat k)).

(** *** [_fsvd] *)

(** The body of the loop of the branch without the power method. *)
Definition krylov_step (A H : matrix F) : matrix F :=
  let tmp := dot A (dot A H) in
  hstack H (dot A (dot A tmp)).

(** The matrix [H] that [_fsvd] hands to [qr]. *)
Definition sketch (A G : matrix F) (use_power_method : bool)
  (num_levels : Z) : matrix F :=
  if use_power_method then
    let H := dot A G in
    Nat.iter (range_len 2 (num_levels + 2)) (fun H => dot A (dot A H)) H
  else
    let H := dot A G in
    let H := hstack H (dot A (dot A H)) in
    Nat.iter (range_len 3 (num_levels + 2)) (krylov_step A) H.

Definition _fsvd (centered_distance_matrix : matrix F) (dimension : Z)
  (use_power_method : bool) (num_levels : Z) : M F (vector F * matrix F) :=
  let m := nrows centered_distance_matrix in
  let n := ncols centered_distance_matrix in
  if negb (m =? n) then raise ValueError_expects_square
  else
    let k := (dimension + 2)%Z in
    G <- draw_standard_normal n k ;;
    let H := sketch centered_distance_matrix G use_power_method num_levels in
    ' (Q, _) <- (tell EvQR ;; lift (qr H)) ;;
    let T := dot centered_distance_matrix Q in
    ' (Vt, St, W) <- (tell EvSVD ;; lift (svd T)) ;;
    let W := transpose W in
    let Ut := dot Q W in
    let U_fsvd :=
      if m <? n then map (slice_upto dimension) Vt
      else map (slice_upto dimension) Ut in
    let S := map (fun s => fmul s s) (slice_upto dimension St) in
    ret (S, U_fsvd).

(** *** The stages of [pcoa] after the decomposition *)

(** [eigvals[np.isclose(eigvals, 0)] = 0]. *)
Definition snap_close_to_zero (ev : vector F) : vector F :=
  map (fun x => if fisclose x fzero then fzero else x) ev.

(** [np.any(eigvals < 0)]. *)
Definition any_negative (ev : vector F) : bool :=
  existsb (fun x => fltb x fzero) ev.

Definition warn_negative (ev : vector F) : M F unit :=
  if any_negative ev then tell (EvWarn (vmin ev) (vmax ev)) else ret tt.

(** [eigvals.argsort()[::-1]]. *)
Definition idxs_descending (ev : vector F) : list nat := rev (argsort ev).

(** [(eigvals >= 0).sum()]. *)
Definition num_positive (ev : vector F) : nat :=
  count (fun x => fleb fzero x) ev.

(** [np.apply_along_axis(lambda vec: vec / np.linalg.norm(vec), axis=1,
    arr=eigvecs)]: the function is applied to every row. *)
Definition normalize_along_axis1 (vecs : matrix F) : matrix F :=
  map (fun vec => map (fun x => fdiv x (norm vec)) vec) vecs.

(** [eigvecs * np.sqrt(eigvals)]. *)
Definition scale_by_sqrt (vecs : matrix F) (ev : vector F) : matrix F :=
  map (fun row => map2 fmul row (map fsqrt ev)) vecs.

(** [eigvals / eigvals.sum()]. *)
Definition proportion (ev : vector F) : vector F :=
  map (fun e => fdiv e (vsum ev)) ev.

(** [["PC%d" % i for i in range(1, to_dimension + 1)]]. *)
Definition axis_labels (to_dimension : Z) : list string :=
  map (fun i => String.append "PC" (NilZero.string_of_uint (Nat.to_uint i)))
      (seq 1 (range_len 1 (to_dimension + 1))).

(** What [pcoa] has computed when it builds its result. *)
Record Ordination : Type := {
  o_eigvals : vector F;
  o_eigvecs : matrix F;
  o_coordinates : matrix F;
  o_proportion : vector F
}.

(** Lines 135-139: both arrays are indexed with the same index array. *)
Definition sort_descending (ev : vector F) (vecs : matrix F) :
  vector F * matrix F :=
  let idxs := idxs_descending ev in
  (take idxs ev, map (take idxs) vecs).

(** Lines 146-148: everything from [num_positive] on becomes zero. *)
Definition truncate (ev : vector F) (vecs : matrix F) :
  vector F * matrix F :=
  let p := num_positive ev in
  (zero_from p ev, map (zero_from p) vecs).

(** Lines 120-164 without the warning: snapping, sorting, truncation,
    normalisation, coordinates and proportions. *)
Definition ordinate (eigvals0 : vector F) (eigvecs0 : matrix F)
  (normalize_eigenvectors : bool) : Ordination :=
  let eigvals := snap_close_to_zero eigvals0 in
  let (eigvals, eigvecs) := sort_descending eigvals eigvecs0 in
  let (eigvals, eigvecs) := truncate eigvals eigvecs in
  let eigvecs :=
    if normalize_eigenvectors then normalize_along_axis1 eigvecs
    else eigvecs in
  {| o_eigvals := eigvals;
     o_eigvecs := eigvecs;
     o_coordinates := scale_by_sqrt eigvecs eigvals;
     o_proportion := proportion eigvals |}.

(** Lines 166-174: the labels and the result object. *)
Definition package (o : Ordination) (ids : list string) (to_dimension : Z)
  (long_name : string) : error + OrdinationResults F :=
  let labels := axis_labels to_dimension in
  match pd_Series (o_eigvals o) labels with
  | inl e => inl e
  | inr eigvals_series =>
      match pd_DataFrame (o_coordinates o) ids labels with
      | inl e => inl e
      | inr samples_frame =>
          match pd_Series (o_proportion o) labels with
          | inl e => inl e
          | inr proportion_series =>
              inr {| short_method_name := "PCoA";
                     long_method_name := long_name;
                     eigvals := eigvals_series;
                     samples := samples_frame;
                     proportion_explained := proportion_series |}
          end
      end
  end.

(** *** [pcoa] *)

(** Lines 104-114: the choice of the decomposition. *)
Definition decompose (method : string) (A : matrix F) (to_dimension : Z) :
  M F (vector F * matrix F * string) :=
  if String.eqb method "eigh" then
    r <- (tell EvEigh ;; lift (eigh A)) ;;
    ret (r, "Principal Coordinate Analysis")
  else if String.eqb method "fsvd" then
    r <- _fsvd A to_dimension false 1 ;;
    ret (r, "Approximate Principal Coordinate Analysis using FSVD")
  else raise (ValueError_method_not_supported method).

(** Lines 98-102: the default of [to_dimension]. *)
Definition resolve_dimension (to_dimension : option Z) (A : matrix F) : Z :=
  match to_dimension with
  | None => Z.of_nat (nrows A)
  | Some d => d
  end.

Definition pcoa (distance_matrix : DistanceMatrix F) (method : string)
  (to_dimension : option Z) (normalize_eigenvectors : bool) :
  M F (OrdinationResults F) :=
  (if DistanceMatrix_valid distance_matrix then ret tt
   else raise DistanceMatrixError) ;;
  A <- (tell EvCenter ;;
        ret (center_distance_matrix_optimized (dm_data distance_matrix))) ;;
  let to_dimension := resolve_dimension to_dimension A in
  ' (eigvals0, eigvecs0, long_method_name) <-
    decompose method A to_dimension ;;
  warn_negative (snap_close_to_zero eigvals0) ;;
  lift (package (ordinate eigvals0 eigvecs0 normalize_eigenvectors)
                (dm_ids distance_matrix) to_dimension long_method_name).

(** What the decomposition hands to the rest of [pcoa], when the input
    is accepted and the decomposition returns. *)
Definition decomposition (distance_matrix : DistanceMatrix F)
  (method : string) (to_dimension : option Z) :
  option (vector F * matrix F * string) :=
  if DistanceMatrix_valid distance_matrix then
    let A := center_distance_matrix_optimized (dm_data distance_matrix) in
    match outcome (decompose method A (resolve_dimension to_dimension A)) with
    | inr r => Some r
    | inl _ => None
    end
  else None.

(** [fleb] is a total preorder on the values of [l]: what [<=] is on
    floats that are not NaN. *)
Definition ordered_on (l : vector F) : Prop :=
  (forall x y, In x l -> In y l -> fleb x y = true \/ fleb y x = true)
  /\ (forall x y z, In x l -> In y l -> In z l ->
       fleb x y = true -> fleb y z = true -> fleb x z = true).

Definition ordered_onb (l : vector F) : bool :=
  forallb (fun x => forallb (fun y => fleb x y || fleb y x) l) l
  && forallb (fun x => forallb (fun y => forallb (fun z =>
       implb (fleb x y && fleb y z) (fleb x z)) l) l) l.

(** Descending order, as [fleb] sees it. *)
Definition descending (l : vector F) : Prop :=
  StronglySorted (fun a b => fleb b a = true) l.

(** *** The intermediate arrays of [_fsvd] *)

(** [G], [Q], [T], [St] and [W] (before its transposition) of lines
    236-278, for a probe width [dimension + 2 >= 0]. Where [qr] or [svd]
    raises there is no such array and the name stands for the empty
    one, so a shape with a positive number of rows says that the
    factorisation returned. *)
Definition fsvd_G (A : matrix F) (dimension : Z) : matrix F :=
  standard_normal (ncols A) (Z.to_nat (dimension + 2)).

Definition fsvd_H (A : matrix F) (dimension : Z) (use_power_method : bool)
  (num_levels : Z) : matrix F :=
  sketch A (fsvd_G A dimension) use_power_method num_levels.

Definition fsvd_Q (A : matrix F) (dimension : Z) (use_power_method : bool)
  (num_levels : Z) : matrix F :=
  match qr (fsvd_H A dimension use_power_method num_levels) with
  | inr (Q, _) => Q
  | inl _ => []
  end.

Definition fsvd_T (A : matrix F) (dimension : Z) (use_power_method : bool)
  (num_levels : Z) : matrix F :=
  dot A (fsvd_Q A dimension use_power_method num_levels).

Definition fsvd_St (A : matrix F) (dimension : Z) (use_power_method : bool)
  (num_levels : Z) : vector F :=
  match svd (fsvd_T A dimension use_power_method num_levels) with
  | inr (_, St, _) => St
  | inl _ => []
  end.

Definition fsvd_W (A : matrix F) (dimension : Z) (use_power_method : bool)
  (num_levels : Z) : matrix F :=
  match svd (fsvd_T A dimension use_power_method num_levels) with
  | inr (_, _, W) => W
  | inl _ => []
  end.

(** The shapes NumPy documents for what the collaborators return on
    this input: an n-by-k draw, the reduced [Q] of [qr], and the
    singular values and right factor of [svd(T, full_matrices=False)]. *)
Definition fsvd_shapes_fit (A : matrix F) (dimension : Z)
  (use_power_method : bool) (num_levels : Z) : Prop :=
  let n := ncols A in
  let H := fsvd_H A dimension use_power_method num_levels in
  let T := fsvd_T A dimension use_power_method num_levels in
  has_shape (fsvd_G A dimension) n (Z.to_nat (dimension + 2))
  /\ has_shape (fsvd_Q A dimension use_power_method num_levels) n
       (Nat.min n (ncols H))
  /\ length (fsvd_St A dimension use_power_method num_levels)
     = Nat.min n (ncols T)
  /\ has_shape (fsvd_W A dimension use_power_method num_levels)
       (Nat.min n (ncols T)) (ncols T).

End Pcoa.

(** ** IEEE binary64 scalars *)

(** [np.isclose(a, b)] with [rtol=1e-05], [atol=1e-08]: the tolerance
    test on finite values, equality otherwise. *)
Definition f64_isclose (a b : float) : bool :=
  if is_finite a && is_finite b
  then PrimFloat.leb (abs (a - b))
         (0x1.5798ee2308c3ap-27 + 0x1.4f8b588e368f1p-17 * abs b)%float
  else PrimFloat.eqb a b.

#[export] Instance Scalar_float : Scalar float := {
  fzero := 0%float;
  fadd := PrimFloat.add;
  fmul := PrimFloat.mul;
  fdiv := PrimFloat.div;
  fsqrt := PrimFloat.sqrt;
  fleb := PrimFloat.leb;
  fltb := PrimFloat.ltb;
  fisclose := f64_isclose
}.

(** ** A backend for worked examples *)

(** The examples below run [pcoa] on three inputs: matrices of zeros
    (all entities identical) and the four-point matrix [four_points],
    whose decompositions are exact in binary64, and the five collinear
    points [centroid_points], whose table is given to the nearest
    binary64 value and checked against the eigen-equation below. *)

Definition f64_vector_eqb (u v : vector float) : bool :=
  (length u =? length v)
  && forallb (fun p => PrimFloat.eqb (fst p) (snd p)) (combine u v).

Definition f64_matrix_eqb (A B : matrix float) : bool :=
  (length A =? length B)
  && forallb (fun p => f64_vector_eqb (fst p) (snd p)) (combine A B).

Definition string_mem (s : string) (l : list string) : bool :=
  existsb (String.eqb s) l.

Fixpoint string_nodup (l : list string) : bool :=
  match l with
  | [] => true
  | s :: l' => negb (string_mem s l') && string_nodup l'
  end.

(** The checks of the [DistanceMatrix] constructor: square data, one
    unique id per row, zero diagonal, symmetry. *)
Definition f64_DistanceMatrix_valid (dm : DistanceMatrix float) : bool :=
  let D := dm_data dm in
  forallb (fun r => length r =? nrows D) D
  && (length (dm_ids dm) =? nrows D)
  && string_nodup (dm_ids dm)
  && forallb (fun i => PrimFloat.eqb (nth i (nth i D []) 0%float) 0%float)
       (seq 0 (nrows D))
  && f64_matrix_eqb D (transpose D).

(** Gower centering: [E = -D*D/2], then row, column and grand means are
    removed. *)
Definition f64_of_nat (n : nat) : float :=
  Nat.iter n (fun x => (x + 1)%float) 0%float.

Definition f64_mean (v : vector float) (n : nat) : float :=
  (vsum v / f64_of_nat n)%float.

Definition f64_center (D : matrix float) : matrix float :=
  let n := nrows D in
  let E := map (map (fun d => (- 0.5 * (d * d))%float)) D in
  let row_means := map (fun r => f64_mean r n) E in
  let col_means := map (fun j => f64_mean (col j E) n) (seq 0 (ncols E)) in
  let grand := f64_mean row_means n in
  map (fun ir =>
         map (fun je =>
                (snd je - snd ir - nth (fst je) col_means 0 + grand)%float)
             (combine (seq 0 (length (fst ir))) (fst ir)))
      (combine E row_means).

Definition f64_eye (n k : nat) : matrix float :=
  map (fun i => map (fun j => if i =? j then 1%float else 0%float) (seq 0 k))
      (seq 0 n).

Definition f64_zeros (n k : nat) : matrix float :=
  repeat (repeat 0%float k) n.

(** Four points with pairwise distances 1, 2 and 3. *)
Definition four_points : DistanceMatrix float := {|
  dm_data := [[0; 1; 2; 3]; [1; 0; 3; 2]; [2; 3; 0; 1]; [3; 2; 1; 0]]%float;
  dm_ids := ["a"; "b"; "c"; "d"]
|}.

Definition four_points_centered : matrix float :=
  [[ 1.75;  1.25; -0.25; -2.75];
   [ 1.25;  1.75; -2.75; -0.25];
   [-0.25; -2.75;  1.75;  1.25];
   [-2.75; -0.25;  1.25;  1.75]]%float.

(** Its eigenvalues in ascending order, as [scipy.linalg.eigh] lists
    them, and the eigenvectors as columns. *)
Definition four_points_eigvals : vector float := [-2; 0; 3; 6]%float.

Definition four_points_eigvecs : matrix float :=
  [[ 0.5; 0.5;  0.5;  0.5];
   [-0.5; 0.5; -0.5;  0.5];
   [-0.5; 0.5;  0.5; -0.5];
   [ 0.5; 0.5; -0.5; -0.5]]%float.

(** Five collinear points at 0, -5, -4, 4 and 5 times 123456789, the
    first one at the centroid of the others. *)
Definition centroid_points : DistanceMatrix float := {|
  dm_data :=
    [[0; 617283945; 493827156; 493827156; 617283945];
     [617283945; 0; 123456789; 1111111101; 1234567890];
     [493827156; 123456789; 0; 987654312; 1111111101];
     [493827156; 1111111101; 987654312; 0; 123456789];
     [617283945; 1234567890; 1111111101; 123456789; 0]]%float;
  dm_ids := ["o"; "p"; "q"; "r"; "s"]
|}.

(** Its centred matrix in binary64. The squares exceed 53 bits, and the
    rounding leaves -32 instead of 0 for the point at the centroid. *)
Definition centroid_centered : matrix float :=
  [[-32; 0; 0; 0; 0];
   [0; 0x1.526e583121ff4p+58; 0x1.0ebeacf41b32ap+58;
    -0x1.0ebeacf41b32ap+58; -0x1.526e583121ff4p+58];
   [0; 0x1.0ebeacf41b32ap+58; 0x1.b13114b9c51ddp+57;
    -0x1.b13114b9c51dbp+57; -0x1.0ebeacf41b32ap+58];
   [0; -0x1.0ebeacf41b32ap+58; -0x1.b13114b9c51dbp+57;
    0x1.b13114b9c51ddp+57; 0x1.0ebeacf41b32ap+58];
   [0; -0x1.526e583121ff4p+58; -0x1.0ebeacf41b32ap+58;
    0x1.0ebeacf41b32ap+58; 0x1.526e583121ff4p+58]]%float.

(** Its eigenvalues in ascending order, about -56.2, -32, 0, 64 and
    1.25e18, and its eigenvectors as columns, to the nearest binary64
    value: the first point is, exactly, the eigenvector of -32, and no
    other eigenvector has a component on it. *)
Definition centroid_eigvals : vector float :=
  [-0x1.c18f9c18f9c19p+5; -32; 0; 64; 0x1.1583714702471p+60]%float.

Definition centroid_eigvecs : matrix float :=
  [[0; 1; 0; 0; 0];
   [0x1.c453d90f057a2p-2; 0; 0x1.6a09e667f3bcdp-1; 0;
    0x1.1ab467a9636c5p-1];
   [-0x1.1ab467a9636c5p-1; 0; 0; 0x1.6a09e667f3bcdp-1;
    0x1.c453d90f057a2p-2];
   [0x1.1ab467a9636c5p-1; 0; 0; 0x1.6a09e667f3bcdp-1;
    -0x1.c453d90f057a2p-2];
   [-0x1.c453d90f057a2p-2; 0; 0x1.6a09e667f3bcdp-1; 0;
    -0x1.1ab467a9636c5p-1]]%float.

Definition f64_finite (A : matrix float) : bool :=
  forallb (forallb PrimFloat.is_finite) A.

(** [eigh] on the matrices of the examples; on any other finite matrix
    the answer is the one of the zero matrix. An array that is not
    finite is refused, as [check_finite] does. *)
Definition f64_eigh (A : matrix float) :
  error + (vector float * matrix float) :=
  if negb (f64_finite A) then inl ValueError_not_finite
  else if f64_matrix_eqb A four_points_centered
  then inr (four_points_eigvals, four_points_eigvecs)
  else if f64_matrix_eqb A centroid_centered
  then inr (centroid_eigvals, centroid_eigvecs)
  else inr (repeat 0%float (nrows A), f64_eye (nrows A) (nrows A)).

(** A fixed draw of the generator. *)
Definition f64_standard_normal (n k : nat) : matrix float :=
  map (fun i =>
         map (fun j => nth ((i + 2 * j) mod 4)
                         [0.5; -1.25; 0.75; 2]%float 0%float)
             (seq 0 k))
      (seq 0 n).

(** The reduced factorisations of a zero matrix:
    [0 = Q * 0] and [0 = U * diag(0) * Wt]. On an array that is not
    finite [qr] returns factors of NaN and [svd] does not converge. *)
Definition f64_qr (H : matrix float) :
  error + (matrix float * matrix float) :=
  let r := Nat.min (nrows H) (ncols H) in
  if f64_finite H
  then inr (f64_eye (nrows H) r, f64_zeros r (ncols H))
  else inr (repeat (repeat nan r) (nrows H), repeat (repeat nan (ncols H)) r).

Definition f64_svd (T : matrix float) :
  error + (matrix float * vector float * matrix float) :=
  let r := Nat.min (nrows T) (ncols T) in
  if f64_finite T
  then inr (f64_eye (nrows T) r, repeat 0%float r, f64_eye r (ncols T))
  else inl LinAlgError.

#[export] Instance Backend_float : Backend float := {
  DistanceMatrix_valid := f64_DistanceMatrix_valid;
  center_distance_matrix_optimized := f64_center;
  eigh := f64_eigh;
  standard_normal := f64_standard_normal;
  qr := f64_qr;
  svd := f64_svd
}.

(** Entities that coincide: every distance is zero. *)
Definition coincident (ids : list string) : DistanceMatrix float := {|
  dm_data := f64_zeros (length ids) (length ids);
  dm_ids := ids
|}.

(** The same backend with another draw of the generator. *)
Definition Backend_float_redrawn : Backend float := {|
  DistanceMatrix_valid := f64_DistanceMatrix_valid;
  center_distance_matrix_optimized := f64_center;
  eigh := f64_eigh;
  standard_normal := fun n k => map (map PrimFloat.opp) (f64_standard_normal n k);
  qr := f64_qr;
  svd := f64_svd
|}.

(** * Facts *)

(** ** Shapes *)

Section Shapes.
Context {F : Type} {SF : Scalar F}.

Lemma ncols_of_shape (A : matrix F) (n c : nat) :
  has_shape A n c -> 0 < n -> ncols A = c.
Proof.
  intros [Hlen Hrows] Hn. destruct A as [|r A']; simpl in *.
  - lia.
  - now inversion Hrows.
Qed.

Lemma dot_shape (A B : matrix F) :
  has_shape (dot A B) (nrows A) (ncols B).
Proof.
  unfold has_shape, dot, nrows. split.
  - apply length_map.
  - apply Forall_forall. intros row Hin.
    apply in_map_iff in Hin. destruct Hin as [r [<- _]].
    now rewrite length_map, length_seq.
Qed.

Lemma dot_square_shape (A B : matrix F) (n c : nat) :
  has_shape A n n -> has_shape B n c -> 0 < n -> has_shape (dot A B) n c.
Proof.
  intros HA HB Hn.
  rewrite <- (ncols_of_shape HB Hn).
  destruct HA as [<- _]. apply dot_shape.
Qed.

Lemma hstack_shape (A B : matrix F) (n c1 c2 : nat) :
  has_shape A n c1 -> has_shape B n c2 -> has_shape (hstack A B) n (c1 + c2).
Proof.
  revert B n. induction A as [|r A' IH]; intros B n [HlA HrA] [HlB HrB].
  - simpl in *. subst n. split; [reflexivity | constructor].
  - destruct B as [|s B']; simpl in *; [lia|].
    inversion HrA as [|? ? Hr HrA']. inversion HrB as [|? ? Hs HrB']. subst.
    destruct (IH B' (length A')) as [Hl Hr'].
    + split; [reflexivity | assumption].
    + split; [lia | assumption].
    + split; simpl; [now rewrite Hl|].
      constructor; [now rewrite length_app | assumption].
Qed.

Lemma krylov_step_shape (A H : matrix F) (n c : nat) :
  has_shape A n n -> has_shape H n c -> 0 < n ->
  has_shape (krylov_step A H) n (c + c).
Proof.
  intros HA HH Hn. unfold krylov_step.
  apply hstack_shape; [assumption|].
  repeat apply dot_square_shape; assumption.
Qed.

Lemma krylov_iter_shape (A H : matrix F) (n c i : nat) :
  has_shape A n n -> has_shape H n c -> 0 < n ->
  has_shape (Nat.iter i (krylov_step A) H) n (c * 2 ^ i).
Proof.
  intros HA HH Hn. induction i as [|i IH].
  - simpl. now rewrite Nat.mul_1_r.
  - simpl Nat.iter.
    replace (c * 2 ^ S i) with (c * 2 ^ i + c * 2 ^ i)
      by (rewrite Nat.pow_succ_r'; lia).
    now apply krylov_step_shape.
Qed.

Lemma power_iter_shape (A H : matrix F) (n c i : nat) :
  has_shape A n n -> has_shape H n c -> 0 < n ->
  has_shape (Nat.iter i (fun H => dot A (dot A H)) H) n c.
Proof.
  intros HA HH Hn. induction i as [|i IH]; simpl.
  - assumption.
  - repeat apply dot_square_shape; assumption.
Qed.

(** The first two blocks, which the branch without the power method
    always builds. *)
Lemma first_blocks_shape (A G : matrix F) (n k : nat) :
  has_shape A n n -> has_shape G n k -> 0 < n ->
  has_shape (hstack (dot A G) (dot A (dot A (dot A G)))) n (k + k).
Proof.
  intros HA HG Hn.
  apply hstack_shape; repeat apply dot_square_shape; assumption.
Qed.

(** With the power method the sketch keeps the width of the probe. *)
Lemma sketch_power_shape (A G : matrix F) (n k : nat) (num_levels : Z) :
  has_shape A n n -> has_shape G n k -> 0 < n ->
  has_shape (sketch A G true num_levels) n k.
Proof.
  intros HA HG Hn. unfold sketch.
  apply power_iter_shape; try assumption.
  now apply dot_square_shape.
Qed.

(** Without it the width doubles with every level: the loop stacks
    [A (A (A (A H)))], as wide as the whole of [H], onto [H]. *)
Lemma sketch_krylov_shape (A G : matrix F) (n k : nat) (num_levels : Z) :
  has_shape A n n -> has_shape G n k -> 0 < n -> (1 <= num_levels)%Z ->
  has_shape (sketch A G false num_levels) n (k * 2 ^ Z.to_nat num_levels).
Proof.
  intros HA HG Hn HL. unfold sketch, range_len.
  replace (Z.to_nat num_levels) with (S (Z.to_nat (num_levels + 2 - 3)))
    by lia.
  rewrite Nat.pow_succ_r'.
  replace (k * (2 * 2 ^ Z.to_nat (num_levels + 2 - 3)))
    with ((k + k) * 2 ^ Z.to_nat (num_levels + 2 - 3)) by lia.
  apply krylov_iter_shape; try assumption.
  now apply first_blocks_shape.
Qed.

(** With the default [num_levels=1] the sketch has two blocks. *)
Lemma sketch_default_shape (A G : matrix F) (n k : nat) :
  has_shape A n n -> has_shape G n k -> 0 < n ->
  has_shape (sketch A G false 1) n (k * 2).
Proof.
  intros HA HG Hn.
  apply (sketch_krylov_shape (num_levels := 1) HA HG Hn). lia.
Qed.

(** C3 (the code departs from it): with [use_power_method] false and
    [num_levels = 2] the sketch of an n-by-n matrix and an n-by-k probe
    has [n] rows and [4 * k] columns, where the claim's
    [k * (num_levels + 1)] is [3 * k]. *)
Theorem sketch_two_levels_width (A G : matrix F) (n k : nat) :
  has_shape A n n -> has_shape G n k -> 0 < n -> 0 < k ->
  nrows (sketch A G false 2) = n
  /\ ncols (sketch A G false 2) = 4 * k
  /\ ncols (sketch A G false 2) <> k * (2 + 1).
Proof.
  intros HA HG Hn Hk.
  assert (HS : has_shape (sketch A G false 2) n (k * 2 ^ Z.to_nat 2))
    by (apply sketch_krylov_shape; try assumption; lia).
  change (2 ^ Z.to_nat 2) with 4 in HS.
  pose proof (ncols_of_shape HS Hn) as Hc.
  destruct HS as [Hr _]. unfold nrows. repeat split; lia.
Qed.

End Shapes.

(** ** Runs of [_fsvd] and [pcoa] *)

Section Runs.
Context {F : Type} {SF : Scalar F} {BF : Backend F}.

Lemma fsvd_not_square (A : matrix F) (d : Z) (upm : bool) (L : Z) :
  nrows A <> ncols A ->
  _fsvd A d upm L = ([], inl ValueError_expects_square).
Proof.
  intros Hne. unfold _fsvd.
  apply Nat.eqb_neq in Hne. now rewrite Hne.
Qed.

Lemma fsvd_negative_probe (A : matrix F) (d : Z) (upm : bool) (L : Z) :
  nrows A = ncols A -> (d + 2 < 0)%Z ->
  _fsvd A d upm L = ([], inl ValueError_negative_dimensions).
Proof.
  intros He Hd. unfold _fsvd, draw_standard_normal.
  apply Nat.eqb_eq in He. rewrite He. simpl.
  apply Z.ltb_lt in Hd. now rewrite Hd.
Qed.

(** What [_fsvd] does on a square matrix once the probe width is
    accepted: the run is decided by [qr] and [svd] alone. *)
Lemma fsvd_square_run (A : matrix F) (d : Z) (upm : bool) (L : Z) :
  nrows A = ncols A -> (-2 <= d)%Z ->
  _fsvd A d upm L
  = match qr (fsvd_H A d upm L) with
    | inl e => ([EvStandardNormal; EvQR], inl e)
    | inr (Q, _) =>
        match svd (dot A Q) with
        | inl e => ([EvStandardNormal; EvQR; EvSVD], inl e)
        | inr (_, St, W) =>
            ([EvStandardNormal; EvQR; EvSVD],
             inr (map (fun s => fmul s s) (slice_upto d St),
                  map (slice_upto d) (dot Q (transpose W))))
        end
    end.
Proof.
  intros He Hd. unfold fsvd_H, fsvd_G, _fsvd, draw_standard_normal.
  rewrite He, Nat.eqb_refl, Nat.ltb_irrefl. simpl negb. cbv iota.
  assert (Hk : (d + 2 <? 0)%Z = false) by (apply Z.ltb_ge; lia).
  rewrite Hk. simpl.
  destruct (qr _) as [e|[Q R]]; simpl; [reflexivity|].
  destruct (svd _) as [e|[[Vt St] W]]; reflexivity.
Qed.

(** C1 (as amended): the rank is not validated. For a square matrix
    and every [dimension >= -2], whatever its relation to [n], [_fsvd]
    raises no error of its own: it draws the probe and calls [qr]; an
    error can only be the one [qr] or [svd] raised; and when both
    return, [_fsvd] returns the eigenpairs. It fails before the
    decomposition only on a matrix that is not square, or when NumPy
    refuses the negative probe width [dimension + 2]
    ([fsvd_not_square], [fsvd_negative_probe]). *)
Theorem fsvd_rank_not_validated (A : matrix F) (d : Z) (upm : bool) (L : Z) :
  nrows A = ncols A -> (-2 <= d)%Z ->
  let H := fsvd_H A d upm L in
  incl [EvStandardNormal; EvQR] (trace (_fsvd A d upm L))
  /\ (forall e, outcome (_fsvd A d upm L) = inl e ->
      qr H = inl e
      \/ exists Q R, qr H = inr (Q, R) /\ svd (dot A Q) = inl e)
  /\ (forall Q R Vt St W,
      qr H = inr (Q, R) -> svd (dot A Q) = inr (Vt, St, W) ->
      _fsvd A d upm L
      = ([EvStandardNormal; EvQR; EvSVD],
         inr (map (fun s => fmul s s) (slice_upto d St),
              map (slice_upto d) (dot Q (transpose W))))).
Proof.
  intros He Hd H. subst H. rewrite fsvd_square_run by assumption.
  destruct (qr (fsvd_H A d upm L)) as [e|[Q R]].
  - split; [intros x Hx; exact Hx|]. split.
    + intros e' He'. simpl in He'. left. congruence.
    + intros Q R Vt St W HQ. discriminate.
  - destruct (svd (dot A Q)) as [e|[[Vt St] W]] eqn:Hsvd.
    + split; [intros x Hx; simpl in *; tauto|]. split.
      * intros e' He'. simpl in He'. right. exists Q, R.
        split; [reflexivity | congruence].
      * intros Q' R' Vt' St' W' HQ HS.
        injection HQ as <- <-. rewrite Hsvd in HS. discriminate.
    + split; [intros x Hx; simpl in *; tauto|]. split.
      * intros e' He'. discriminate.
      * intros Q' R' Vt' St' W' HQ HS.
        injection HQ as <- <-. rewrite Hsvd in HS.
        injection HS as <- <- <-. reflexivity.
Qed.

Lemma pcoa_invalid_input (dm : DistanceMatrix F) (method : string)
  (td : option Z) (nz : bool) :
  DistanceMatrix_valid dm = false ->
  pcoa dm method td nz = ([], inl DistanceMatrixError).
Proof.
  intros Hv. unfold pcoa. now rewrite Hv.
Qed.

(** C2 (as amended): an unrecognised method is refused with the
    [ValueError] of line 113 after the distance matrix has been
    validated and centred, and before any decomposition; no result is
    produced. *)
Theorem pcoa_unsupported_method (dm : DistanceMatrix F) (method : string)
  (td : option Z) (nz : bool) :
  DistanceMatrix_valid dm = true ->
  method <> "eigh" -> method <> "fsvd" ->
  pcoa dm method td nz
  = ([EvCenter], inl (ValueError_method_not_supported method)).
Proof.
  intros Hv He Hf. unfold pcoa, decompose. rewrite Hv.
  apply String.eqb_neq in He. apply String.eqb_neq in Hf.
  simpl. now rewrite He, Hf.
Qed.

(** [decompose] never warns. *)
Lemma decompose_trace (method : string) (A : matrix F) (d : Z) :
  forall lo hi, ~ In (EvWarn lo hi) (trace (decompose method A d)).
Proof.
  intros lo hi. unfold decompose.
  destruct (String.eqb method "eigh").
  - simpl. destruct (eigh A) as [e|r]; simpl; intros [H|[]]; discriminate.
  - destruct (String.eqb method "fsvd"); [|simpl; tauto].
    unfold _fsvd, draw_standard_normal.
    destruct (negb _); [simpl; tauto|].
    destruct (_ <? 0)%Z; [simpl; tauto|]. simpl.
    destruct (qr _) as [e|[Q R]]; simpl;
      [intros [H|[H|[]]]; discriminate|].
    destruct (svd _) as [e|[[Vt St] W]]; simpl;
      intros [H|[H|[H|[]]]]; discriminate.
Qed.

(** The run of [pcoa] once the decomposition has returned: the warning,
    if any, is the only further event, and the outcome is the one of
    the packaging. *)
Lemma pcoa_after_decomposition (dm : DistanceMatrix F) (method : string)
  (td : option Z) (nz : bool) (ev : vector F) (vecs : matrix F)
  (name : string) :
  decomposition dm method td = Some (ev, vecs, name) ->
  let A := center_distance_matrix_optimized (dm_data dm) in
  let d := resolve_dimension td A in
  pcoa dm method td nz
  = (EvCenter :: trace (decompose method A d)
       ++ trace (warn_negative (snap_close_to_zero ev)),
     package (ordinate ev vecs nz) (dm_ids dm) d name).
Proof.
  intros Hd A d. subst A d. unfold decomposition in Hd. unfold pcoa.
  destruct (DistanceMatrix_valid dm); [|discriminate]. simpl.
  destruct (decompose method _ _) as [t [e|[[ev' vecs'] name']]];
    simpl in Hd; [discriminate|].
  injection Hd as -> -> ->. simpl.
  unfold warn_negative.
  destruct (any_negative _); simpl; now rewrite ?app_nil_r.
Qed.

Lemma package_fields (o : @Ordination F) (ids : list string) (d : Z)
  (name : string) (res : OrdinationResults F) :
  package o ids d name = inr res ->
  s_values (eigvals res) = o_eigvals o
  /\ df_values (samples res) = o_coordinates o
  /\ s_values (proportion_explained res) = o_proportion o
  /\ s_index (eigvals res) = axis_labels d
  /\ df_columns (samples res) = axis_labels d
  /\ df_index (samples res) = ids.
Proof.
  unfold package, pd_Series, pd_DataFrame. intros H.
  destruct (length (o_eigvals o) =? _); [|discriminate].
  destruct (_ && _); [|discriminate].
  destruct (length (o_proportion o) =? _); [|discriminate].
  injection H as <-. simpl. repeat split.
Qed.

(** What a returned result holds, in terms of [ordinate]. *)
Lemma pcoa_result (dm : DistanceMatrix F) (method : string)
  (td : option Z) (nz : bool) (ev : vector F) (vecs : matrix F)
  (name : string) (res : OrdinationResults F) :
  decomposition dm method td = Some (ev, vecs, name) ->
  outcome (pcoa dm method td nz) = inr res ->
  s_values (eigvals res) = o_eigvals (ordinate ev vecs nz)
  /\ df_values (samples res) = o_coordinates (ordinate ev vecs nz)
  /\ s_values (proportion_explained res) = o_proportion (ordinate ev vecs nz).
Proof.
  intros Hd Hr. erewrite pcoa_after_decomposition in Hr by exact Hd.
  simpl in Hr. apply package_fields in Hr. tauto.
Qed.

End Runs.

(** ** Sorting *)

Section SortedLists.
Variable A : Type.

Lemma StronglySorted_app (R : A -> A -> Prop) (l1 l2 : list A) :
  StronglySorted R l1 -> StronglySorted R l2 ->
  (forall x y, In x l1 -> In y l2 -> R x y) ->
  StronglySorted R (l1 ++ l2).
Proof.
  induction l1 as [|a l1 IH]; intros H1 H2 Hx; simpl; [assumption|].
  apply StronglySorted_inv in H1. destruct H1 as [H1 Ha].
  constructor.
  - apply IH; [assumption | assumption |].
    intros x y Hin Hin'. apply Hx; [now right | assumption].
  - apply Forall_app. split; [assumption|].
    apply Forall_forall. intros y Hy. apply Hx; [now left | assumption].
Qed.

Lemma StronglySorted_rev (R : A -> A -> Prop) (l : list A) :
  StronglySorted R l -> StronglySorted (fun a b => R b a) (rev l).
Proof.
  induction 1 as [|a l Hs IH Ha]; simpl; [constructor|].
  apply StronglySorted_app.
  - assumption.
  - repeat constructor.
  - intros x y Hx [<-|[]]. apply in_rev in Hx.
    eapply Forall_forall in Ha; eassumption.
Qed.

Lemma StronglySorted_firstn (R : A -> A -> Prop) (n : nat) (l : list A) :
  StronglySorted R l -> StronglySorted R (firstn n l).
Proof.
  intros Hs. revert n. induction Hs as [|a l Hs IH Ha]; intros [|n]; simpl;
    try constructor.
  - apply IH.
  - apply Forall_forall. intros x Hx.
    eapply Forall_forall in Ha; [eassumption|].
    rewrite <- (firstn_skipn n l). apply in_or_app. now left.
Qed.

Lemma StronglySorted_map (R : A -> A -> Prop) (B : Type) (f : B -> A)
  (l : list B) :
  StronglySorted (fun x y => R (f x) (f y)) l -> StronglySorted R (map f l).
Proof.
  induction 1 as [|b l Hs IH Hb]; simpl; constructor; [assumption|].
  apply Forall_forall. intros y Hy.
  apply in_map_iff in Hy. destruct Hy as [x [<- Hx]].
  eapply Forall_forall in Hb; eassumption.
Qed.

End SortedLists.

Section Order.
Context {F : Type} {SF : Scalar F}.

Lemma ordered_onb_sound (l : vector F) :
  ordered_onb l = true -> ordered_on l.
Proof.
  unfold ordered_onb, ordered_on. intros H.
  apply andb_true_iff in H. destruct H as [Ht Hr]. split.
  - intros x y Hx Hy.
    eapply forallb_forall in Ht; [|exact Hx].
    eapply forallb_forall in Ht; [|exact Hy].
    now apply orb_true_iff in Ht.
  - intros x y z Hx Hy Hz Hxy Hyz.
    eapply forallb_forall in Hr; [|exact Hx].
    eapply forallb_forall in Hr; [|exact Hy].
    eapply forallb_forall in Hr; [|exact Hz].
    now rewrite Hxy, Hyz in Hr.
Qed.

Lemma ordered_on_incl (l l' : vector F) :
  ordered_on l -> incl l' l -> ordered_on l'.
Proof.
  intros [Ht Hr] Hi. split.
  - intros x y Hx Hy. apply Ht; now apply Hi.
  - intros x y z Hx Hy Hz. apply Hr; now apply Hi.
Qed.

Lemma ordered_on_refl (l : vector F) (x : F) :
  ordered_on l -> In x l -> fleb x x = true.
Proof.
  intros [Ht _] Hx. destruct (Ht x x Hx Hx); assumption.
Qed.

Lemma snap_incl (ev : vector F) :
  incl (snap_close_to_zero ev) (fzero :: ev).
Proof.
  intros x Hx. unfold snap_close_to_zero in Hx.
  apply in_map_iff in Hx. destruct Hx as [y [<- Hy]].
  destruct (fisclose y fzero); [now left | now right].
Qed.

Lemma snap_length (ev : vector F) :
  length (snap_close_to_zero ev) = length ev.
Proof. apply length_map. Qed.

(** *** [argsort] *)

Lemma insert_idx_perm (key : nat -> F) (i : nat) (l : list nat) :
  Permutation (insert_idx key i l) (i :: l).
Proof.
  induction l as [|j l IH]; simpl; [reflexivity|].
  destruct (fleb (key i) (key j)); [reflexivity|].
  rewrite IH. apply perm_swap.
Qed.

Lemma insert_all_perm (key : nat -> F) (l : list nat) :
  Permutation (fold_right (insert_idx key) [] l) l.
Proof.
  induction l as [|i l IH]; simpl; [reflexivity|].
  rewrite insert_idx_perm. now constructor.
Qed.

Lemma argsort_perm (v : vector F) :
  Permutation (argsort v) (seq 0 (length v)).
Proof. apply insert_all_perm. Qed.

Lemma argsort_length (v : vector F) : length (argsort v) = length v.
Proof.
  rewrite (Permutation_length (argsort_perm v)). apply length_seq.
Qed.

Section Insertion.
Variables (key : nat -> F) (P : nat -> Prop).
Hypothesis total : forall a b, P a -> P b ->
  fleb (key a) (key b) = true \/ fleb (key b) (key a) = true.
Hypothesis trans : forall a b c, P a -> P b -> P c ->
  fleb (key a) (key b) = true -> fleb (key b) (key c) = true ->
  fleb (key a) (key c) = true.

Lemma insert_idx_sorted (i : nat) (l : list nat) :
  P i -> Forall P l ->
  StronglySorted (fun a b => fleb (key a) (key b) = true) l ->
  StronglySorted (fun a b => fleb (key a) (key b) = true)
    (insert_idx key i l).
Proof.
  intros Hi Hl Hs. induction Hs as [|j l Hs IH Hj]; simpl.
  - repeat constructor.
  - apply Forall_cons_iff in Hl. destruct Hl as [HPj HPl].
    destruct (fleb (key i) (key j)) eqn:E.
    + constructor; [now constructor|].
      constructor; [assumption|].
      apply Forall_forall. intros x Hx.
      pose proof (proj1 (Forall_forall _ _) Hj x Hx) as Hjx.
      pose proof (proj1 (Forall_forall _ _) HPl x Hx) as HPx.
      exact (trans Hi HPj HPx E Hjx).
    + constructor; [now apply IH|].
      apply (Permutation_Forall (Permutation_sym (insert_idx_perm key i l))).
      constructor; [|assumption].
      destruct (total Hi HPj) as [H|H]; [congruence | assumption].
Qed.

Lemma insert_all_sorted (l : list nat) :
  Forall P l ->
  StronglySorted (fun a b => fleb (key a) (key b) = true)
    (fold_right (insert_idx key) [] l).
Proof.
  induction 1 as [|i l Hi Hl IH]; simpl; [constructor|].
  apply insert_idx_sorted; [assumption | | assumption].
  apply (Permutation_Forall (Permutation_sym (insert_all_perm key l))).
  assumption.
Qed.

End Insertion.

Lemma argsort_sorted (v : vector F) :
  ordered_on v ->
  StronglySorted
    (fun a b => fleb (nth a v fzero) (nth b v fzero) = true) (argsort v).
Proof.
  intros [Ht Hr]. unfold argsort.
  apply insert_all_sorted with (P := fun i => i < length v).
  - intros a b Ha Hb. apply Ht; now apply nth_In.
  - intros a b c Ha Hb Hc. apply Hr; now apply nth_In.
  - apply Forall_forall. intros i Hi. apply in_seq in Hi. lia.
Qed.

(** *** Indexing with a permutation *)

Lemma take_seq (v : vector F) : take (seq 0 (length v)) v = v.
Proof.
  unfold take. apply nth_ext with (d := fzero) (d' := fzero).
  - now rewrite length_map, length_seq.
  - intros n Hn. rewrite length_map, length_seq in Hn.
    rewrite (nth_indep _ fzero (nth 0 v fzero))
      by now rewrite length_map, length_seq.
    rewrite (map_nth (fun i => nth i v fzero) (seq 0 (length v)) 0 n).
    rewrite seq_nth by assumption. reflexivity.
Qed.

Lemma take_perm (idx : list nat) (v : vector F) :
  Permutation idx (seq 0 (length v)) -> Permutation (take idx v) v.
Proof.
  intros Hp. rewrite <- (take_seq v) at 2.
  unfold take. now apply Permutation_map.
Qed.

Lemma take_length (idx : list nat) (v : vector F) :
  length (take idx v) = length idx.
Proof. apply length_map. Qed.

Lemma idxs_descending_perm (v : vector F) :
  Permutation (idxs_descending v) (seq 0 (length v)).
Proof.
  unfold idxs_descending.
  rewrite <- (Permutation_rev (argsort v)). apply argsort_perm.
Qed.

Lemma idxs_descending_length (v : vector F) :
  length (idxs_descending v) = length v.
Proof.
  rewrite (Permutation_length (idxs_descending_perm v)). apply length_seq.
Qed.

(** The sorted eigenvalues are a rearrangement of the given ones, in
    descending order. *)
Lemma sorted_eigvals_perm (v : vector F) :
  Permutation (take (idxs_descending v) v) v.
Proof. apply take_perm, idxs_descending_perm. Qed.

Lemma sorted_eigvals_descending (v : vector F) :
  ordered_on v -> descending (take (idxs_descending v) v).
Proof.
  intros Ho. unfold descending, take, idxs_descending.
  apply StronglySorted_map.
  apply (StronglySorted_rev (argsort_sorted Ho)).
Qed.

End Order.

(** ** Truncation *)

Section Truncation.
Context {F : Type} {SF : Scalar F}.

Lemma zero_from_length (p : nat) (v : vector F) :
  length (zero_from p v) = length v.
Proof.
  unfold zero_from. rewrite length_app, length_firstn, repeat_length. lia.
Qed.

Lemma zero_from_nth (p j : nat) (v : vector F) :
  p <= j -> nth j (zero_from p v) fzero = fzero.
Proof.
  intros Hj. unfold zero_from.
  destruct (Nat.le_gt_cases (length v) p) as [Hp|Hp].
  - replace (length v - p) with 0 by lia. simpl. rewrite app_nil_r.
    apply nth_overflow. rewrite length_firstn. lia.
  - rewrite app_nth2 by (rewrite length_firstn; lia).
    apply nth_repeat.
Qed.

Lemma zero_from_nth_lt (p j : nat) (v : vector F) :
  j < p -> j < length v -> nth j (zero_from p v) fzero = nth j v fzero.
Proof.
  intros Hj Hl. unfold zero_from.
  rewrite app_nth1 by (rewrite length_firstn; lia).
  rewrite nth_firstn. apply Nat.ltb_lt in Hj. now rewrite Hj.
Qed.

Lemma count_perm (f : F -> bool) (u v : vector F) :
  Permutation u v -> count f u = count f v.
Proof.
  unfold count. induction 1 as [|x u v Hp IH|x y u|u v w H1 IH1 H2 IH2];
    simpl.
  - reflexivity.
  - destruct (f x); simpl; now rewrite IH.
  - destruct (f x), (f y); reflexivity.
  - now rewrite IH1.
Qed.

Lemma repeat_descending (x : F) (n : nat) :
  fleb x x = true -> descending (repeat x n).
Proof.
  intros Hx. induction n as [|n IH]; simpl; constructor; [assumption|].
  apply Forall_forall. intros y Hy. apply repeat_spec in Hy. now subst.
Qed.

Lemma filter_none (f : F -> bool) (v : vector F) :
  (forall x, In x v -> f x = false) -> filter f v = [].
Proof.
  induction v as [|a v IH]; intros H; simpl; [reflexivity|].
  rewrite (H a) by now left. apply IH. intros x Hx. apply H. now right.
Qed.

(** In a descending list the values [>= 0] are the first
    [num_positive] ones. *)
Lemma nonnegative_prefix (v : vector F) :
  ordered_on (fzero :: v) -> descending v ->
  Forall (fun x => fleb fzero x = true) (firstn (num_positive v) v).
Proof.
  intros Ho Hd. induction Hd as [|a v Hd IH Ha].
  - constructor.
  - assert (Ho' : ordered_on (fzero :: v)).
    { apply (ordered_on_incl Ho). intros x [<-|Hx];
        [now left | now right; right]. }
    unfold num_positive, count in *. simpl.
    destruct (fleb fzero a) eqn:E; simpl.
    + constructor; [assumption | now apply IH].
    + replace (filter (fun x => fleb fzero x) v) with (@nil F);
        [constructor|].
      symmetry. apply filter_none. intros x Hx.
      destruct (fleb fzero x) eqn:Ex; [|reflexivity].
      pose proof (proj1 (Forall_forall _ _) Ha x Hx) as Hxa.
      destruct Ho as [_ Htr]. rewrite <- E. symmetry.
      apply (Htr fzero x a); simpl; auto.
Qed.

End Truncation.

(** ** The pipeline after the decomposition *)

Section Pipeline.
Context {F : Type} {SF : Scalar F}.

Lemma map2_length (f : F -> F -> F) (u v : vector F) :
  length (map2 f u v) = Nat.min (length u) (length v).
Proof.
  revert v. induction u as [|a u IH]; intros [|b v]; simpl; auto.
Qed.

Lemma map2_nth (f : F -> F -> F) (u v : vector F) (j : nat) :
  j < length u -> j < length v ->
  nth j (map2 f u v) fzero = f (nth j u fzero) (nth j v fzero).
Proof.
  revert u v. induction j as [|j IH]; intros [|a u] [|b v] Hu Hv;
    simpl in *; try lia; [reflexivity|].
  apply IH; lia.
Qed.

Lemma take_nth (idx : list nat) (v : vector F) (j : nat) :
  j < length idx -> nth j (take idx v) fzero = nth (nth j idx 0) v fzero.
Proof.
  intros Hj. unfold take.
  rewrite (nth_indep _ fzero (nth 0 v fzero)) by now rewrite length_map.
  apply (map_nth (fun i => nth i v fzero)).
Qed.

(** The sorted eigenvalues of a run. *)
Lemma ordinate_eigvals (ev : vector F) (vecs : matrix F) (nz : bool) :
  let s := fst (sort_descending (snap_close_to_zero ev) vecs) in
  o_eigvals (ordinate ev vecs nz) = zero_from (num_positive s) s.
Proof. reflexivity. Qed.

Lemma ordinate_eigvecs (ev : vector F) (vecs : matrix F) (nz : bool) :
  let s := sort_descending (snap_close_to_zero ev) vecs in
  o_eigvecs (ordinate ev vecs nz)
  = if nz then normalize_along_axis1 (snd (truncate (fst s) (snd s)))
    else snd (truncate (fst s) (snd s)).
Proof. simpl. destruct nz; reflexivity. Qed.

Lemma ordinate_coordinates (ev : vector F) (vecs : matrix F) (nz : bool) :
  o_coordinates (ordinate ev vecs nz)
  = scale_by_sqrt (o_eigvecs (ordinate ev vecs nz))
      (o_eigvals (ordinate ev vecs nz)).
Proof. reflexivity. Qed.

Lemma ordinate_proportion (ev : vector F) (vecs : matrix F) (nz : bool) :
  o_proportion (ordinate ev vecs nz)
  = proportion (o_eigvals (ordinate ev vecs nz)).
Proof. reflexivity. Qed.

Lemma sorted_length (ev : vector F) (vecs : matrix F) :
  length (fst (sort_descending ev vecs)) = length ev.
Proof. simpl. now rewrite take_length, idxs_descending_length. Qed.

Lemma ordinate_eigvals_length (ev : vector F) (vecs : matrix F) (nz : bool) :
  length (o_eigvals (ordinate ev vecs nz)) = length ev.
Proof.
  rewrite ordinate_eigvals. cbv zeta.
  now rewrite zero_from_length, sorted_length, snap_length.
Qed.

Lemma ordinate_eigvecs_shape (ev : vector F) (vecs : matrix F) (nz : bool) :
  has_shape (o_eigvecs (ordinate ev vecs nz)) (length vecs) (length ev).
Proof.
  rewrite ordinate_eigvecs. cbv zeta. simpl.
  assert (H : has_shape
            (map (zero_from (num_positive
                    (take (idxs_descending (snap_close_to_zero ev))
                       (snap_close_to_zero ev))))
               (map (take (idxs_descending (snap_close_to_zero ev))) vecs))
            (length vecs) (length ev)).
  { split; [now rewrite !length_map|].
    apply Forall_forall. intros row Hrow.
    apply in_map_iff in Hrow. destruct Hrow as [r [<- Hr]].
    apply in_map_iff in Hr. destruct Hr as [r0 [<- _]].
    now rewrite zero_from_length, take_length, idxs_descending_length,
      snap_length. }
  destruct nz; [|exact H].
  destruct H as [Hl Hr]. unfold normalize_along_axis1. split.
  - now rewrite length_map.
  - apply Forall_forall. intros row Hrow.
    apply in_map_iff in Hrow. destruct Hrow as [r [<- Hin]].
    rewrite length_map. eapply Forall_forall in Hr; eassumption.
Qed.

Lemma ordinate_coordinates_shape (ev : vector F) (vecs : matrix F)
  (nz : bool) :
  has_shape (o_coordinates (ordinate ev vecs nz)) (length vecs) (length ev).
Proof.
  rewrite ordinate_coordinates. unfold scale_by_sqrt.
  destruct (ordinate_eigvecs_shape ev vecs nz) as [Hl Hr]. split.
  - now rewrite length_map.
  - apply Forall_forall. intros row Hrow.
    apply in_map_iff in Hrow. destruct Hrow as [r [<- Hin]].
    rewrite map2_length, length_map, ordinate_eigvals_length.
    eapply Forall_forall in Hr; [|eassumption]. rewrite Hr. lia.
Qed.

Lemma sorted_snapped_ordered (ev : vector F) (vecs : matrix F) :
  ordered_on (fzero :: ev) ->
  ordered_on (fzero :: fst (sort_descending (snap_close_to_zero ev) vecs)).
Proof.
  intros Ho. apply (ordered_on_incl Ho).
  intros x [<-|Hx]; [now left|].
  apply snap_incl.
  apply Permutation_in with (1 := sorted_eigvals_perm _). exact Hx.
Qed.

Lemma sorted_snapped_descending (ev : vector F) (vecs : matrix F) :
  ordered_on (fzero :: ev) ->
  descending (fst (sort_descending (snap_close_to_zero ev) vecs)).
Proof.
  intros Ho. apply sorted_eigvals_descending.
  apply (ordered_on_incl Ho), snap_incl.
Qed.

Lemma ordinate_eigvals_nonnegative (ev : vector F) (vecs : matrix F)
  (nz : bool) :
  ordered_on (fzero :: ev) ->
  Forall (fun x => fleb fzero x = true) (o_eigvals (ordinate ev vecs nz)).
Proof.
  intros Ho. rewrite ordinate_eigvals. cbv zeta. unfold zero_from.
  apply Forall_app. split.
  - apply nonnegative_prefix.
    + now apply sorted_snapped_ordered.
    + now apply sorted_snapped_descending.
  - apply Forall_forall. intros x Hx. apply repeat_spec in Hx. subst x.
    apply ordered_on_refl with (l := fzero :: ev); [exact Ho | now left].
Qed.

Lemma ordinate_eigvals_descending (ev : vector F) (vecs : matrix F)
  (nz : bool) :
  ordered_on (fzero :: ev) ->
  descending (o_eigvals (ordinate ev vecs nz)).
Proof.
  intros Ho. rewrite ordinate_eigvals. cbv zeta. unfold zero_from.
  apply StronglySorted_app.
  - apply StronglySorted_firstn. now apply sorted_snapped_descending.
  - apply repeat_descending.
    apply ordered_on_refl with (l := fzero :: ev); [exact Ho | now left].
  - intros x y Hx Hy. apply repeat_spec in Hy. subst y.
    pose proof (nonnegative_prefix (sorted_snapped_ordered vecs Ho)
                  (sorted_snapped_descending vecs Ho)) as Hn.
    eapply Forall_forall in Hn; eassumption.
Qed.

End Pipeline.

(** ** Extremes *)

Section Extremes.
Context {F : Type}.
Variables (le : F -> F -> bool) (S : list F).
Hypothesis total : forall x y, In x S -> In y S ->
  le x y = true \/ le y x = true.
Hypothesis trans : forall x y z, In x S -> In y S -> In z S ->
  le x y = true -> le y z = true -> le x z = true.

Lemma fold_extreme (v : list F) (a : F) :
  In a S -> incl v S ->
  let m := fold_left (fun m x => if le x m then x else m) v a in
  In m (a :: v) /\ le m a = true /\ Forall (fun x => le m x = true) v.
Proof.
  pose proof total as T. pose proof trans as R.
  revert a. induction v as [|x v IH]; intros a Ha Hv; simpl.
  - repeat split; [now left | | constructor].
    destruct (T a a Ha Ha); assumption.
  - assert (Hx : In x S) by (apply Hv; now left).
    assert (Hv' : incl v S) by (intros y Hy; apply Hv; now right).
    destruct (le x a) eqn:E.
    + destruct (IH x Hx Hv') as [Hin [Hmx Hall]].
      assert (Hm : In (fold_left (fun m x => if le x m then x else m) v x) S).
      { destruct Hin as [<-|Hin]; [assumption | now apply Hv']. }
      repeat split.
      * right. exact Hin.
      * exact (R _ _ _ Hm Hx Ha Hmx E).
      * constructor; assumption.
    + destruct (IH a Ha Hv') as [Hin [Hma Hall]].
      assert (Hm : In (fold_left (fun m x => if le x m then x else m) v a) S).
      { destruct Hin as [<-|Hin]; [assumption | now apply Hv']. }
      repeat split.
      * destruct Hin as [<-|Hin]; [now left | now right; right].
      * exact Hma.
      * constructor; [|assumption].
        destruct (T x a Hx Ha) as [H|H]; [congruence|].
        exact (R _ _ _ Hm Ha Hx Hma H).
Qed.

End Extremes.

Section MinMax.
Context {F : Type} {SF : Scalar F}.

(** [v.min()] is an element of [v] below all of them, [v.max()] one
    above all of them. *)
Lemma vmin_least (v : vector F) :
  ordered_on v -> v <> [] ->
  In (vmin v) v /\ Forall (fun x => fleb (vmin v) x = true) v.
Proof.
  intros [Ht Hr] Hne. destruct v as [|a v]; [congruence|].
  unfold vmin.
  destruct (@fold_extreme F fleb (a :: v) Ht Hr v a) as [Hin [Ha Hall]].
  - now left.
  - intros x Hx. now right.
  - split; [assumption | now constructor].
Qed.

Lemma vmax_greatest (v : vector F) :
  ordered_on v -> v <> [] ->
  In (vmax v) v /\ Forall (fun x => fleb x (vmax v) = true) v.
Proof.
  intros [Ht Hr] Hne. destruct v as [|a v]; [congruence|].
  unfold vmax.
  destruct (@fold_extreme F (fun x y => fleb y x) (a :: v)) with (v := v) (a := a)
    as [Hin [Ha Hall]].
  - intros x y Hx Hy. destruct (Ht x y Hx Hy); [now right | now left].
  - intros x y z Hx Hy Hz Hxy Hyz. exact (Hr z y x Hz Hy Hx Hyz Hxy).
  - now left.
  - intros x Hx. now right.
  - split; [assumption | now constructor].
Qed.

End MinMax.

(** ** Properties of [pcoa] *)

Section Properties.
Context {F : Type} {SF : Scalar F} {BF : Backend F}.

Lemma axis_labels_length (n : nat) :
  length (axis_labels (Z.of_nat n)) = n.
Proof.
  unfold axis_labels, range_len. rewrite length_map, length_seq. lia.
Qed.

(** The exact path ignores [to_dimension] when it decomposes. *)
Lemma decomposition_eigh (dm : DistanceMatrix F) (td : option Z) :
  decomposition dm "eigh" td = decomposition dm "eigh" None.
Proof.
  unfold decomposition, decompose.
  destruct (DistanceMatrix_valid dm); reflexivity.
Qed.

(** The packaging succeeds exactly when the labels fit. *)
Lemma package_fits (o : @Ordination F) (ids : list string) (n : nat)
  (name : string) :
  length (o_eigvals o) = n ->
  has_shape (o_coordinates o) n n ->
  length (o_proportion o) = n ->
  length ids = n ->
  exists res, package o ids (Z.of_nat n) name = inr res.
Proof.
  intros He [Hc Hr] Hp Hi. unfold package, pd_Series, pd_DataFrame, nrows.
  rewrite He, Hp, Hc, Hi, axis_labels_length, Nat.eqb_refl. simpl.
  replace (forallb _ _) with true; [eexists; reflexivity|].
  symmetry. apply forallb_forall. intros r Hin.
  eapply Forall_forall in Hr; [|eassumption].
  rewrite Hr. apply Nat.eqb_refl.
Qed.

(** X14: on the exact path all [n] eigenpairs are computed whatever
    [to_dimension] is, nothing is truncated, and the result has exactly
    [n] axes when [to_dimension] is omitted or equal to [n]. *)
Theorem eigh_returns_all_axes (dm : DistanceMatrix F) (nz : bool)
  (ev : vector F) (vecs : matrix F) (name : string) (n : nat) :
  decomposition dm "eigh" None = Some (ev, vecs, name) ->
  nrows (center_distance_matrix_optimized (dm_data dm)) = n ->
  length (dm_ids dm) = n ->
  length ev = n -> has_shape vecs n n ->
  (forall td,
     decomposition dm "eigh" td = Some (ev, vecs, name)
     /\ length (o_eigvals (ordinate ev vecs nz)) = n
     /\ has_shape (o_coordinates (ordinate ev vecs nz)) n n)
  /\ (forall td, td = None \/ td = Some (Z.of_nat n) ->
      exists res,
        outcome (pcoa dm "eigh" td nz) = inr res
        /\ length (s_values (eigvals res)) = n
        /\ has_shape (df_values (samples res)) n n
        /\ length (s_values (proportion_explained res)) = n
        /\ length (s_index (eigvals res)) = n).
Proof.
  intros Hd Hn Hi He [Hv Hvr].
  assert (Hl : length (o_eigvals (ordinate ev vecs nz)) = n)
    by now rewrite ordinate_eigvals_length.
  assert (Hc : has_shape (o_coordinates (ordinate ev vecs nz)) n n).
  { pose proof (ordinate_coordinates_shape ev vecs nz) as H.
    now rewrite He, Hv in H. }
  split.
  - intros td. now rewrite decomposition_eigh.
  - intros td Htd.
    assert (Hd' : decomposition dm "eigh" td = Some (ev, vecs, name))
      by now rewrite decomposition_eigh.
    assert (Hdim : resolve_dimension td
                     (center_distance_matrix_optimized (dm_data dm))
                   = Z.of_nat n).
    { destruct Htd as [-> | ->]; simpl; [now rewrite Hn | reflexivity]. }
    destruct (@package_fits (ordinate ev vecs nz) (dm_ids dm) n name)
      as [res Hres]; try assumption.
    { rewrite ordinate_proportion. unfold proportion.
      now rewrite length_map. }
    exists res.
    erewrite pcoa_after_decomposition by exact Hd'. simpl.
    rewrite Hdim. split; [exact Hres|].
    apply package_fields in Hres.
    destruct Hres as [E1 [E2 [E3 [E4 _]]]].
    rewrite E1, E2, E3, E4, axis_labels_length.
    rewrite ordinate_proportion. unfold proportion. rewrite length_map.
    tauto.
Qed.

(** C6 (as amended): the division by the eigenvalue sum is not
    guarded. When the sum is zero every proportion is its eigenvalue
    divided by zero; the zero sum raises no error and no zeros are
    substituted: the outcome is the one of the packaging, and a returned
    result carries these quotients. *)
Theorem proportion_unguarded (dm : DistanceMatrix F) (method : string)
  (td : option Z) (nz : bool) (ev : vector F) (vecs : matrix F)
  (name : string) :
  decomposition dm method td = Some (ev, vecs, name) ->
  let o := ordinate ev vecs nz in
  vsum (o_eigvals o) = fzero ->
  o_proportion o = map (fun e => fdiv e fzero) (o_eigvals o)
  /\ outcome (pcoa dm method td nz)
     = package o (dm_ids dm)
         (resolve_dimension td
            (center_distance_matrix_optimized (dm_data dm))) name
  /\ (forall res, outcome (pcoa dm method td nz) = inr res ->
      s_values (proportion_explained res)
      = map (fun e => fdiv e fzero) (s_values (eigvals res))).
Proof.
  intros Hd o Hs.
  assert (Hp : o_proportion o = map (fun e => fdiv e fzero) (o_eigvals o)).
  { unfold o. rewrite ordinate_proportion. unfold proportion.
    fold o. now rewrite Hs. }
  split; [exact Hp|]. split.
  - erewrite pcoa_after_decomposition by exact Hd. reflexivity.
  - intros res Hr.
    destruct (pcoa_result dm method td nz Hd Hr) as [E1 [_ E3]].
    fold o in E1, E3. now rewrite E1, E3.
Qed.

(** C7: the warning is emitted exactly when an eigenvalue is still
    negative after the values close to zero have been set to zero; it
    carries the smallest and the largest eigenvalue; and with or without
    it the run goes on to the packaging of the same ordination. *)
Theorem negative_warning_iff (dm : DistanceMatrix F) (method : string)
  (td : option Z) (nz : bool) (ev : vector F) (vecs : matrix F)
  (name : string) :
  decomposition dm method td = Some (ev, vecs, name) ->
  let snapped := snap_close_to_zero ev in
  let run := pcoa dm method td nz in
  ((exists lo hi, In (EvWarn lo hi) (trace run))
   <-> (exists x, In x snapped /\ fltb x fzero = true))
  /\ (forall lo hi, In (EvWarn lo hi) (trace run) ->
      lo = vmin snapped /\ hi = vmax snapped)
  /\ (ordered_on snapped -> snapped <> [] ->
      In (vmin snapped) snapped /\ In (vmax snapped) snapped
      /\ Forall (fun x => fleb (vmin snapped) x = true
                          /\ fleb x (vmax snapped) = true) snapped)
  /\ outcome run
     = package (ordinate ev vecs nz) (dm_ids dm)
         (resolve_dimension td
            (center_distance_matrix_optimized (dm_data dm))) name.
Proof.
  intros Hd snapped run. subst run.
  erewrite pcoa_after_decomposition by exact Hd.
  unfold trace at 1 3. unfold outcome. cbn [fst snd].
  fold snapped.
  assert (Hw : forall lo hi,
             In (EvWarn lo hi)
               (EvCenter
                :: trace (decompose method
                     (center_distance_matrix_optimized (dm_data dm))
                     (resolve_dimension td
                        (center_distance_matrix_optimized (dm_data dm))))
                   ++ trace (warn_negative snapped))
             <-> any_negative snapped = true
                 /\ lo = vmin snapped /\ hi = vmax snapped).
  { intros lo hi. split.
    - intros [H|H]; [discriminate|].
      apply in_app_or in H. destruct H as [H|H].
      + now apply decompose_trace in H.
      + unfold warn_negative in H.
        destruct (any_negative snapped); simpl in H; [|tauto].
        destruct H as [H|[]]. injection H as <- <-. auto.
    - intros [Hn [-> ->]]. right. apply in_or_app. right.
      unfold warn_negative. rewrite Hn. now left. }
  repeat split.
  - intros [lo [hi H]]. apply Hw in H. destruct H as [H _].
    unfold any_negative in H. now apply existsb_exists in H.
  - intros Hx. exists (vmin snapped), (vmax snapped). apply Hw.
    repeat split. unfold any_negative. now apply existsb_exists.
  - apply Hw in H. tauto.
  - apply Hw in H. tauto.
  - now apply vmin_least.
  - now apply vmax_greatest.
  - apply Forall_forall. intros x Hx. split.
    + destruct (vmin_least H H0) as [_ Hall].
      eapply Forall_forall in Hall; eassumption.
    + destruct (vmax_greatest H H0) as [_ Hall].
      eapply Forall_forall in Hall; eassumption.
Qed.

Lemma map_nth_lt (g : F -> F) (v : vector F) (j : nat) :
  j < length v -> nth j (map g v) fzero = g (nth j v fzero).
Proof.
  intros Hj. rewrite (nth_indep _ fzero (g fzero)) by now rewrite length_map.
  apply map_nth.
Qed.

(** The truncated eigenvectors, before any normalisation. *)
Lemma truncated_eigvecs_column (ev : vector F) (vecs : matrix F) (j : nat) :
  let s := sort_descending (snap_close_to_zero ev) vecs in
  num_positive (fst s) <= j ->
  Forall (fun row => nth j row fzero = fzero)
    (snd (truncate (fst s) (snd s))).
Proof.
  intros s Hj. unfold truncate. cbn [snd].
  apply Forall_forall. intros row Hrow.
  apply in_map_iff in Hrow. destruct Hrow as [r [<- _]].
  now apply zero_from_nth.
Qed.

(** X15: every axis from [num_positive] on has a zero eigenvalue, and
    the number of axes is the one the decomposition returned. Without
    [normalize_eigenvectors] its eigenvector and its coordinate column
    are zero as well; with it the zero entries are divided by the norm
    of their row, and they stay zero where that quotient is zero (a row
    norm that is neither zero nor NaN). *)
Theorem truncated_axes_are_zero (dm : DistanceMatrix F) (method : string)
  (td : option Z) (nz : bool) (ev : vector F) (vecs : matrix F)
  (name : string) (res : OrdinationResults F) (j : nat) :
  decomposition dm method td = Some (ev, vecs, name) ->
  outcome (pcoa dm method td nz) = inr res ->
  let s := sort_descending (snap_close_to_zero ev) vecs in
  fmul fzero (fsqrt fzero) = fzero ->
  (nz = true ->
   Forall (fun row => fdiv fzero (norm row) = fzero)
     (snd (truncate (fst s) (snd s)))) ->
  num_positive (fst s) <= j -> j < length ev ->
  nth j (s_values (eigvals res)) fzero = fzero
  /\ Forall (fun row => nth j row fzero = fzero)
       (o_eigvecs (ordinate ev vecs nz))
  /\ Forall (fun row => nth j row fzero = fzero) (df_values (samples res))
  /\ length (s_values (eigvals res)) = length ev
  /\ has_shape (df_values (samples res)) (length vecs) (length ev).
Proof.
  intros Hd Hr s Hmul Hdiv Hj Hlt.
  destruct (pcoa_result dm method td nz Hd Hr) as [E1 [E2 _]].
  assert (Hval : nth j (o_eigvals (ordinate ev vecs nz)) fzero = fzero).
  { rewrite ordinate_eigvals. now apply zero_from_nth. }
  assert (Hvec : Forall (fun row => nth j row fzero = fzero)
                   (o_eigvecs (ordinate ev vecs nz))).
  { rewrite ordinate_eigvecs. fold s.
    pose proof (truncated_eigvecs_column ev vecs Hj) as Ht. fold s in Ht.
    destruct nz; [|exact Ht].
    specialize (Hdiv eq_refl). unfold normalize_along_axis1.
    apply Forall_forall. intros row Hrow.
    apply in_map_iff in Hrow. destruct Hrow as [r [<- Hin]].
    pose proof (proj1 (Forall_forall _ _) Ht r Hin) as Hz.
    pose proof (proj1 (Forall_forall _ _) Hdiv r Hin) as Hq.
    simpl in Hz, Hq.
    transitivity
      (nth j (map (fun x => fdiv x (norm r)) r) (fdiv fzero (norm r))).
    - now rewrite Hq.
    - rewrite (map_nth (fun x => fdiv x (norm r))). now rewrite Hz. }
  rewrite E1, E2. repeat split.
  - exact Hval.
  - exact Hvec.
  - rewrite ordinate_coordinates. unfold scale_by_sqrt.
    destruct (ordinate_eigvecs_shape ev vecs nz) as [_ Hshape].
    apply Forall_forall. intros row Hrow.
    apply in_map_iff in Hrow. destruct Hrow as [r [<- Hin]].
    pose proof (proj1 (Forall_forall _ _) Hvec r Hin) as Hz.
    pose proof (proj1 (Forall_forall _ _) Hshape r Hin) as Hlen.
    simpl in Hz, Hlen.
    rewrite map2_nth.
    + rewrite Hz, map_nth_lt, Hval by
        (rewrite ordinate_eigvals_length; exact Hlt).
      exact Hmul.
    + now rewrite Hlen.
    + now rewrite length_map, ordinate_eigvals_length.
  - apply ordinate_eigvals_length.
  - apply ordinate_coordinates_shape.
  - apply ordinate_coordinates_shape.
Qed.

Lemma nth_map_lt (A B : Type) (g : A -> B) (l : list A) (i : nat)
  (a : A) (b : B) :
  i < length l -> nth i (map g l) b = g (nth i l a).
Proof.
  intros Hi. rewrite (nth_indep _ b (g a)) by now rewrite length_map.
  apply map_nth.
Qed.

(** Entry [j] of row [i] of the truncated eigenvectors, in terms of the
    index array the sort has used. *)
Lemma truncated_entry (idxs : list nat) (p i j : nat) (vecs : matrix F) :
  i < length vecs -> j < length idxs ->
  nth j (nth i (map (zero_from p) (map (take idxs) vecs)) []) fzero
  = if j <? p then nth (nth j idxs 0) (nth i vecs []) fzero else fzero.
Proof.
  intros Hi Hj. rewrite map_map.
  rewrite (nth_map_lt (fun r => zero_from p (take idxs r)) vecs [] [] Hi).
  destruct (j <? p) eqn:E.
  - apply Nat.ltb_lt in E.
    rewrite zero_from_nth_lt by (rewrite ?take_length; assumption).
    now apply take_nth.
  - apply Nat.ltb_ge in E. now apply zero_from_nth.
Qed.

(** Every entry of the eigenvalues and of the coordinates of a run, in
    terms of the index array [sigma] the sort has used: the eigenvalue
    and the eigenvector column of one axis come from the same index. *)
Lemma ordinate_entries (ev : vector F) (vecs : matrix F) (nz : bool) :
  let snapped := snap_close_to_zero ev in
  let p := num_positive snapped in
  let sigma := idxs_descending snapped in
  forall j, j < length ev ->
    let lam := if j <? p then nth (nth j sigma 0) snapped fzero
               else fzero in
    nth j (o_eigvals (ordinate ev vecs nz)) fzero = lam
    /\ forall i, i < length vecs ->
       let row := nth i vecs [] in
       let e := if j <? p then nth (nth j sigma 0) row fzero else fzero in
       nth j (nth i (o_coordinates (ordinate ev vecs nz)) []) fzero
       = fmul (if nz then fdiv e (norm (zero_from p (take sigma row)))
               else e)
           (fsqrt lam).
Proof.
  intros snapped p sigma.
  assert (Hlen : length sigma = length ev).
  { unfold sigma, snapped. now rewrite idxs_descending_length, snap_length. }
  assert (Hp : num_positive (take sigma snapped) = p).
  { unfold num_positive, p. apply count_perm, sorted_eigvals_perm. }
  assert (Hval : forall j, j < length ev ->
            nth j (o_eigvals (ordinate ev vecs nz)) fzero
            = if j <? p then nth (nth j sigma 0) snapped fzero else fzero).
  { intros j Hj. rewrite ordinate_eigvals. cbv zeta.
    change (fst (sort_descending (snap_close_to_zero ev) vecs))
      with (take sigma snapped).
    rewrite Hp. destruct (j <? p) eqn:E.
    - apply Nat.ltb_lt in E.
      rewrite zero_from_nth_lt by (rewrite ?take_length, ?Hlen; assumption).
      apply take_nth. now rewrite Hlen.
    - apply Nat.ltb_ge in E. now apply zero_from_nth. }
  intros j Hj lam. subst lam. split; [now apply Hval|].
  intros i Hi row e. subst row e.
  rewrite ordinate_coordinates. unfold scale_by_sqrt.
  destruct (ordinate_eigvecs_shape ev vecs nz) as [Hrows Hcols].
  rewrite (nth_map_lt _ (o_eigvecs (ordinate ev vecs nz)) [] [])
    by (rewrite Hrows; exact Hi).
  assert (Hrow : length (nth i (o_eigvecs (ordinate ev vecs nz)) [])
                 = length ev).
  { apply (proj1 (Forall_forall _ _) Hcols), nth_In.
    rewrite Hrows. exact Hi. }
  rewrite map2_nth
    by (rewrite ?length_map, ?ordinate_eigvals_length, ?Hrow; assumption).
  rewrite (map_nth_lt fsqrt) by (rewrite ordinate_eigvals_length; exact Hj).
  rewrite (Hval j Hj). f_equal.
  rewrite ordinate_eigvecs. cbv zeta. unfold truncate. cbn [fst snd].
  change (fst (sort_descending (snap_close_to_zero ev) vecs))
    with (take sigma snapped).
  change (snd (sort_descending (snap_close_to_zero ev) vecs))
    with (map (take sigma) vecs).
  rewrite Hp.
  assert (Hjs : j < length sigma) by (rewrite Hlen; exact Hj).
  pose proof (@truncated_entry sigma p i j vecs Hi Hjs) as Hentry.
  destruct nz; [|exact Hentry].
  unfold normalize_along_axis1.
  rewrite (nth_map_lt _ (map (zero_from p) (map (take sigma) vecs)) [] [])
    by (rewrite !length_map; exact Hi).
  rewrite (map_nth_lt (fun x => fdiv x _))
    by (rewrite map_map,
          (nth_map_lt (fun r => zero_from p (take sigma r)) vecs [] [] Hi),
          zero_from_length, take_length; exact Hjs).
  rewrite Hentry. f_equal. f_equal.
  rewrite map_map.
  apply (nth_map_lt (fun r => zero_from p (take sigma r)) vecs [] [] Hi).
Qed.

(** C9: whatever order the decomposition returns, the returned
    eigenvalues are in descending order, and one permutation [sigma] of
    the axis indices that sorts the snapped eigenvalues accounts for both
    outputs: returned eigenvalue [j] is eigenvalue [sigma j] of the
    decomposition, and column [j] of the returned coordinates is built
    from column [sigma j] of its eigenvectors (divided by the row norm
    under [normalize_eigenvectors]) times the square root of that same
    eigenvalue. From [num_positive] on an axis holds zeros instead. The
    statement does not depend on how the sort orders equal eigenvalues. *)
Theorem eigenpairs_sorted_together (dm : DistanceMatrix F) (method : string)
  (td : option Z) (nz : bool) (ev : vector F) (vecs : matrix F)
  (name : string) (res : OrdinationResults F) :
  decomposition dm method td = Some (ev, vecs, name) ->
  outcome (pcoa dm method td nz) = inr res ->
  ordered_on (fzero :: ev) ->
  let snapped := snap_close_to_zero ev in
  let p := num_positive snapped in
  exists sigma : list nat,
    Permutation sigma (seq 0 (length ev))
    /\ descending (take sigma snapped)
    /\ descending (s_values (eigvals res))
    /\ forall j, j < length ev ->
       let lam := if j <? p then nth (nth j sigma 0) snapped fzero
                  else fzero in
       nth j (s_values (eigvals res)) fzero = lam
       /\ forall i, i < length vecs ->
          let row := nth i vecs [] in
          let e := if j <? p then nth (nth j sigma 0) row fzero
                   else fzero in
          nth j (nth i (df_values (samples res)) []) fzero
          = fmul (if nz then fdiv e (norm (zero_from p (take sigma row)))
                  else e)
              (fsqrt lam).
Proof.
  intros Hd Hr Ho snapped p.
  destruct (pcoa_result dm method td nz Hd Hr) as [E1 [E2 _]].
  exists (idxs_descending snapped). split; [|split; [|split]].
  - unfold snapped. rewrite <- (snap_length ev).
    apply idxs_descending_perm.
  - exact (sorted_snapped_descending vecs Ho).
  - rewrite E1. now apply ordinate_eigvals_descending.
  - rewrite E1, E2. exact (ordinate_entries ev vecs nz).
Qed.

(** X16: a sample with no component on any retained axis. After the
    truncation its row of eigenvectors holds zeros only, so under
    [normalize_eigenvectors] every coordinate of the sample, on the
    zeroed axes too, is zero divided by the norm of a zero row, times
    the square root of the eigenvalue of the axis. *)
Theorem zero_row_is_divided_by_its_norm (dm : DistanceMatrix F)
  (method : string) (td : option Z) (ev : vector F) (vecs : matrix F)
  (name : string) (res : OrdinationResults F) (i : nat) :
  decomposition dm method td = Some (ev, vecs, name) ->
  outcome (pcoa dm method td true) = inr res ->
  ordered_on (fzero :: ev) ->
  i < length vecs ->
  (forall k, k < length ev ->
     fleb fzero (nth k (snap_close_to_zero ev) fzero) = true ->
     nth k (nth i vecs []) fzero = fzero) ->
  forall j, j < length ev ->
    nth j (nth i (df_values (samples res)) []) fzero
    = fmul (fdiv fzero (norm (repeat fzero (length ev))))
        (fsqrt (nth j (s_values (eigvals res)) fzero)).
Proof.
  intros Hd Hr Ho Hi Hzero j Hj.
  destruct (pcoa_result dm method td true Hd Hr) as [E1 [E2 _]].
  set (snapped := snap_close_to_zero ev) in *.
  set (p := num_positive snapped).
  set (sigma := idxs_descending snapped).
  assert (Hlen : length sigma = length ev).
  { unfold sigma, snapped. now rewrite idxs_descending_length, snap_length. }
  assert (Hp : num_positive (take sigma snapped) = p).
  { unfold num_positive, p. apply count_perm, sorted_eigvals_perm. }
  assert (Hkept : forall m, m < length ev -> m < p ->
            nth (nth m sigma 0) (nth i vecs []) fzero = fzero).
  { intros m Hm Hmp. apply Hzero.
    - assert (Hin : In (nth m sigma 0) (seq 0 (length ev))).
      { apply Permutation_in with (l := sigma).
        - unfold sigma, snapped. rewrite <- (snap_length ev).
          apply idxs_descending_perm.
        - apply nth_In. now rewrite Hlen. }
      apply in_seq in Hin. lia.
    - pose proof (nonnegative_prefix (sorted_snapped_ordered vecs Ho)
                    (sorted_snapped_descending vecs Ho)) as Hpre.
      change (fst (sort_descending (snap_close_to_zero ev) vecs))
        with (take sigma snapped) in Hpre.
      rewrite Hp in Hpre.
      rewrite <- (take_nth sigma snapped) by (rewrite Hlen; exact Hm).
      apply (proj1 (Forall_forall _ _) Hpre).
      rewrite <- (firstn_skipn p (take sigma snapped)) at 1.
      rewrite app_nth1 by (rewrite length_firstn, take_length, Hlen; lia).
      apply nth_In. rewrite length_firstn, take_length, Hlen. lia. }
  assert (Hrow : zero_from p (take sigma (nth i vecs []))
                 = repeat fzero (length ev)).
  { apply nth_ext with (d := fzero) (d' := fzero).
    - now rewrite zero_from_length, take_length, repeat_length.
    - intros m Hm.
      rewrite zero_from_length, take_length, Hlen in Hm.
      rewrite nth_repeat.
      destruct (Nat.lt_ge_cases m p) as [Hmp|Hmp].
      + rewrite zero_from_nth_lt
          by (rewrite ?take_length, ?Hlen; assumption).
        rewrite take_nth by (rewrite Hlen; exact Hm).
        now apply Hkept.
      + now apply zero_from_nth. }
  destruct (@ordinate_entries ev vecs true j Hj) as [Hval Hcoord].
  rewrite E1, E2, Hval. rewrite (Hcoord i Hi).
  fold snapped. fold p. fold sigma. rewrite Hrow.
  destruct (j <? p) eqn:E; [|reflexivity].
  apply Nat.ltb_lt in E. now rewrite (Hkept j Hj E).
Qed.

(** C10: on either path every eigenvalue of the result is [>= 0], and
    the coordinates are the eigenvectors scaled by the square roots of
    exactly these eigenvalues. *)
Theorem returned_eigvals_nonnegative (dm : DistanceMatrix F)
  (method : string) (td : option Z) (nz : bool) (ev : vector F)
  (vecs : matrix F) (name : string) (res : OrdinationResults F) :
  decomposition dm method td = Some (ev, vecs, name) ->
  outcome (pcoa dm method td nz) = inr res ->
  ordered_on (fzero :: ev) ->
  Forall (fun x => fleb fzero x = true) (s_values (eigvals res))
  /\ df_values (samples res)
     = map (fun row => map2 fmul row (map fsqrt (s_values (eigvals res))))
         (o_eigvecs (ordinate ev vecs nz)).
Proof.
  intros Hd Hr Ho.
  destruct (pcoa_result dm method td nz Hd Hr) as [E1 [E2 _]].
  rewrite E1, E2. split.
  - now apply ordinate_eigvals_nonnegative.
  - reflexivity.
Qed.

End Properties.

(** * Worked examples in binary64 *)

(** The backend's table is the decomposition of the centred four-point
    matrix: [A V = V diag(w)] and the columns of [V] are orthonormal. *)
Example four_points_centering :
  f64_DistanceMatrix_valid four_points = true
  /\ f64_center (dm_data four_points) = four_points_centered.
Proof. split; vm_compute; reflexivity. Qed.

Example four_points_eigen_equation :
  f64_matrix_eqb
    (dot four_points_centered four_points_eigvecs)
    (map (fun row => map2 fmul row four_points_eigvals) four_points_eigvecs)
  = true
  /\ f64_matrix_eqb
       (dot (transpose four_points_eigvecs) four_points_eigvecs)
       (f64_eye 4 4)
     = true.
Proof. split; vm_compute; reflexivity. Qed.

Example four_points_ordered :
  ordered_on (fzero :: four_points_eigvals).
Proof. apply ordered_onb_sound. vm_compute. reflexivity. Qed.

(** The backend's table for the centroid input. The centred matrix is
    the one [f64_center] computes. Its first row and column hold -32 on
    the diagonal and zeros elsewhere, so the first unit vector is,
    exactly, an eigenvector of eigenvalue -32. Over the whole table the
    residual [A V - V diag(w)] is at most 32 in every entry, 2^-55 times
    the largest eigenvalue, and the columns of [V] are orthonormal to
    2^-52. *)
Example centroid_points_centering :
  f64_DistanceMatrix_valid centroid_points = true
  /\ f64_center (dm_data centroid_points) = centroid_centered.
Proof. split; vm_compute; reflexivity. Qed.

Example centroid_points_eigen_equation :
  let AV := dot centroid_centered centroid_eigvecs in
  let VW := map (fun row => map2 fmul row centroid_eigvals)
              centroid_eigvecs in
  let within (eps : float) (X Y : matrix float) :=
    forallb (fun p =>
      forallb (fun q => PrimFloat.leb (abs (fst q - snd q)) eps)
        (combine (fst p) (snd p))) (combine X Y) in
  col 1 centroid_eigvecs = [1; 0; 0; 0; 0]%float
  /\ nth 0 centroid_eigvecs [] = [0; 1; 0; 0; 0]%float
  /\ f64_vector_eqb (col 1 AV) [-32; 0; 0; 0; 0]%float = true
  /\ f64_vector_eqb (col 1 VW) [-32; 0; 0; 0; 0]%float = true
  /\ within 32%float AV VW = true
  /\ within 0x1p-52%float
       (dot (transpose centroid_eigvecs) centroid_eigvecs) (f64_eye 5 5)
     = true.
Proof. repeat split; vm_compute; reflexivity. Qed.

Example centroid_points_ordered :
  ordered_on (fzero :: centroid_eigvals).
Proof. apply ordered_onb_sound. vm_compute. reflexivity. Qed.

(** A sketch that overflows: [qr] hands back factors of NaN and [svd]
    raises, after the draw, and [_fsvd] passes the error on. *)
Example fsvd_svd_failure_propagates :
  _fsvd [[0x1p+700; 0]; [0; 0x1p+700]]%float 1 true 1
  = ([EvStandardNormal; EvQR; EvSVD], inl LinAlgError).
Proof. vm_compute. reflexivity. Qed.

(** C1, counterexample: on three coincident entities the approximate
    path with [to_dimension = n = 3] runs the whole decomposition and
    returns a result with three axes. *)
Example fsvd_accepts_dimension_n :
  exists res,
    pcoa (coincident ["a"; "b"; "c"]) "fsvd" (Some 3%Z) false
    = ([EvCenter; EvStandardNormal; EvQR; EvSVD], inr res)
    /\ length (s_values (eigvals res)) = 3.
Proof. eexists. split; vm_compute; reflexivity. Qed.

Lemma fsvd_rank_not_validated_witness :
  let A := f64_zeros 3 3 in
  let H := fsvd_H A 3 false 1 in
  nrows A = ncols A
  /\ (-2 <= 3)%Z
  /\ incl [EvStandardNormal; EvQR] (trace (_fsvd A 3 false 1))
  /\ (forall e, outcome (_fsvd A 3 false 1) = inl e ->
      qr H = inl e
      \/ exists Q R, qr H = inr (Q, R) /\ svd (dot A Q) = inl e)
  /\ (forall Q R Vt St W,
      qr H = inr (Q, R) -> svd (dot A Q) = inr (Vt, St, W) ->
      _fsvd A 3 false 1
      = ([EvStandardNormal; EvQR; EvSVD],
         inr (map (fun s => fmul s s) (slice_upto 3 St),
              map (slice_upto 3) (dot Q (transpose W))))).
Proof.
  intros A H.
  assert (He : nrows A = ncols A) by reflexivity.
  assert (Hd : (-2 <= 3)%Z) by lia.
  split; [exact He|]. split; [exact Hd|].
  exact (fsvd_rank_not_validated A false 1 He Hd).
Defined.

(** C2, counterexample: with a misspelt method the distance matrix has
    been centred when the error is raised. *)
Example unsupported_method_after_centering :
  In EvCenter (trace (pcoa four_points "eihg" None false))
  /\ outcome (pcoa four_points "eihg" None false)
     = inl (ValueError_method_not_supported "eihg").
Proof. split; [now left | reflexivity]. Qed.

Lemma pcoa_unsupported_method_witness :
  DistanceMatrix_valid four_points = true
  /\ "eihg" <> "eigh" /\ "eihg" <> "fsvd"
  /\ pcoa four_points "eihg" None false
     = ([EvCenter], inl (ValueError_method_not_supported "eihg")).
Proof.
  assert (Hv : DistanceMatrix_valid four_points = true)
    by (vm_compute; reflexivity).
  assert (He : "eihg" <> "eigh") by discriminate.
  assert (Hf : "eihg" <> "fsvd") by discriminate.
  split; [exact Hv|]. split; [exact He|]. split; [exact Hf|].
  exact (pcoa_unsupported_method four_points None false Hv He Hf).
Defined.

(** C3, at a concrete input: a 4-by-4 matrix, [dimension = 1] (so
    [k = 3]) and [num_levels = 2] give a sketch of 12 columns, not 9. *)
Lemma sketch_two_levels_width_witness :
  has_shape four_points_centered 4 4
  /\ has_shape (f64_standard_normal 4 3) 4 3
  /\ nrows (sketch four_points_centered (f64_standard_normal 4 3) false 2) = 4
  /\ ncols (sketch four_points_centered (f64_standard_normal 4 3) false 2)
     = 4 * 3
  /\ ncols (sketch four_points_centered (f64_standard_normal 4 3) false 2)
     <> 3 * (2 + 1).
Proof.
  assert (HA : has_shape four_points_centered 4 4)
    by (split; [reflexivity | repeat constructor]).
  assert (HG : has_shape (f64_standard_normal 4 3) 4 3)
    by (split; [reflexivity | repeat constructor]).
  split; [exact HA|]. split; [exact HG|].
  apply (sketch_two_levels_width HA HG); lia.
Defined.

(** C4 (the code departs from it): the exact path with
    [to_dimension = 3] on four entities computes all four eigenpairs,
    and then raises on the three axis labels: neither four axes nor the
    three that were asked for are returned. *)
Example eigh_fewer_dimensions_fails :
  decomposition four_points "eigh" (Some 3%Z)
  = Some (four_points_eigvals, four_points_eigvecs,
          "Principal Coordinate Analysis")
  /\ length four_points_eigvals = 4
  /\ incl [EvCenter; EvEigh]
       (trace (pcoa four_points "eigh" (Some 3%Z) false))
  /\ outcome (pcoa four_points "eigh" (Some 3%Z) false)
     = inl ValueError_length_mismatch.
Proof.
  split; [vm_compute; reflexivity|]. split; [reflexivity|]. split.
  - intros e [<-|[<-|[]]]; vm_compute; tauto.
  - vm_compute. reflexivity.
Qed.

Lemma eigh_returns_all_axes_witness :
  decomposition four_points "eigh" None
  = Some (four_points_eigvals, four_points_eigvecs,
          "Principal Coordinate Analysis")
  /\ (forall td,
        decomposition four_points "eigh" td
        = Some (four_points_eigvals, four_points_eigvecs,
                "Principal Coordinate Analysis")
        /\ length (o_eigvals
                     (ordinate four_points_eigvals four_points_eigvecs false))
           = 4
        /\ has_shape
             (o_coordinates
                (ordinate four_points_eigvals four_points_eigvecs false)) 4 4)
  /\ (forall td, td = None \/ td = Some (Z.of_nat 4) ->
      exists res,
        outcome (pcoa four_points "eigh" td false) = inr res
        /\ length (s_values (eigvals res)) = 4
        /\ has_shape (df_values (samples res)) 4 4
        /\ length (s_values (proportion_explained res)) = 4
        /\ length (s_index (eigvals res)) = 4).
Proof.
  assert (Hd : decomposition four_points "eigh" None
               = Some (four_points_eigvals, four_points_eigvecs,
                       "Principal Coordinate Analysis"))
    by (vm_compute; reflexivity).
  assert (Hn : nrows (center_distance_matrix_optimized
                        (dm_data four_points)) = 4)
    by (vm_compute; reflexivity).
  assert (Hi : length (dm_ids four_points) = 4) by reflexivity.
  assert (He : length four_points_eigvals = 4) by reflexivity.
  assert (Hs : has_shape four_points_eigvecs 4 4)
    by (split; [reflexivity | repeat constructor]).
  split; [exact Hd|].
  exact (eigh_returns_all_axes four_points false Hd Hn Hi He Hs).
Defined.

(** C5 (the code departs from it), on the four points with
    [normalize_eigenvectors=True]: the eigenvectors are the columns, of
    unit norm as [eigh] returns them; the normalisation runs along axis 1
    and gives every row, not every column, unit norm: the two
    eigenvectors that enter the coordinates have norm above 1.125. *)
Theorem normalize_divides_rows_not_eigenvectors :
  let before :=
    o_eigvecs (ordinate four_points_eigvals four_points_eigvecs false) in
  let after :=
    o_eigvecs (ordinate four_points_eigvals four_points_eigvecs true) in
  decomposition four_points "eigh" None
  = Some (four_points_eigvals, four_points_eigvecs,
          "Principal Coordinate Analysis")
  /\ after = map (fun vec => map (fun x => fdiv x (norm vec)) vec) before
  /\ forallb (fun j => PrimFloat.eqb (norm (col j before)) 1) [0; 1] = true
  /\ forallb (fun vec => f64_isclose (norm vec) 1) after = true
  /\ forallb (fun j => PrimFloat.ltb 1.125 (norm (col j after))) [0; 1] = true
  /\ (exists res,
        outcome (pcoa four_points "eigh" None true) = inr res
        /\ df_values (samples res)
           = scale_by_sqrt after (s_values (eigvals res))).
Proof.
  cbv zeta.
  split; [vm_compute; reflexivity|].
  split; [reflexivity|].
  split; [vm_compute; reflexivity|].
  split; [vm_compute; reflexivity|].
  split; [vm_compute; reflexivity|].
  eexists. split; vm_compute; reflexivity.
Qed.

(** C6, counterexample: for two coincident entities the eigenvalue sum
    is zero; [pcoa] returns a result, without any warning of its own,
    whose proportions are all NaN. *)
Example degenerate_proportion_is_nan :
  exists res,
    pcoa (coincident ["a"; "b"]) "eigh" None false
    = ([EvCenter; EvEigh], inr res)
    /\ vsum (s_values (eigvals res)) = 0%float
    /\ length (s_values (proportion_explained res)) = 2
    /\ forallb PrimFloat.is_nan (s_values (proportion_explained res)) = true.
Proof. eexists. repeat split; vm_compute; reflexivity. Qed.

Lemma proportion_unguarded_witness :
  let dm := coincident ["a"; "b"] in
  let o := ordinate [0; 0]%float (f64_eye 2 2) false in
  decomposition dm "eigh" None
  = Some ([0; 0]%float, f64_eye 2 2, "Principal Coordinate Analysis")
  /\ vsum (o_eigvals o) = fzero
  /\ o_proportion o = map (fun e => fdiv e fzero) (o_eigvals o)
  /\ outcome (pcoa dm "eigh" None false)
     = package o (dm_ids dm)
         (resolve_dimension None
            (center_distance_matrix_optimized (dm_data dm)))
         "Principal Coordinate Analysis"
  /\ (forall res, outcome (pcoa dm "eigh" None false) = inr res ->
      s_values (proportion_explained res)
      = map (fun e => fdiv e fzero) (s_values (eigvals res))).
Proof.
  intros dm o.
  assert (Hd : decomposition dm "eigh" None
               = Some ([0; 0]%float, f64_eye 2 2,
                       "Principal Coordinate Analysis"))
    by (vm_compute; reflexivity).
  assert (Hs : vsum (o_eigvals o) = fzero) by (vm_compute; reflexivity).
  split; [exact Hd|]. split; [exact Hs|].
  exact (proportion_unguarded dm "eigh" None false Hd Hs).
Defined.

Lemma negative_warning_iff_witness :
  let snapped := snap_close_to_zero four_points_eigvals in
  let run := pcoa four_points "eigh" None false in
  decomposition four_points "eigh" None
  = Some (four_points_eigvals, four_points_eigvecs,
          "Principal Coordinate Analysis")
  /\ ((exists lo hi, In (EvWarn lo hi) (trace run))
      <-> (exists x, In x snapped /\ fltb x fzero = true))
  /\ (forall lo hi, In (EvWarn lo hi) (trace run) ->
      lo = vmin snapped /\ hi = vmax snapped)
  /\ (ordered_on snapped -> snapped <> [] ->
      In (vmin snapped) snapped /\ In (vmax snapped) snapped
      /\ Forall (fun x => fleb (vmin snapped) x = true
                          /\ fleb x (vmax snapped) = true) snapped)
  /\ outcome run
     = package (ordinate four_points_eigvals four_points_eigvecs false)
         (dm_ids four_points)
         (resolve_dimension None
            (center_distance_matrix_optimized (dm_data four_points)))
         "Principal Coordinate Analysis".
Proof.
  assert (Hd : decomposition four_points "eigh" None
               = Some (four_points_eigvals, four_points_eigvecs,
                       "Principal Coordinate Analysis"))
    by (vm_compute; reflexivity).
  split; [exact Hd|].
  exact (negative_warning_iff four_points "eigh" None false Hd).
Defined.

(** C8 (the code departs from it): five collinear points, the first at
    the centroid of the others, with [normalize_eigenvectors]. The
    result keeps its five axes and the eigenvalues from [num_positive]
    = 3 on are zero, but the coordinates of the first sample on these
    axes are NaN, not zero: all of its eigenvector row lies on a
    truncated axis, and the zero row is divided by its norm. Without
    the normalisation the same coordinates are zero. *)
Theorem normalized_truncated_axes_are_nan :
  exists res res0,
    outcome (pcoa centroid_points "eigh" None true) = inr res
    /\ outcome (pcoa centroid_points "eigh" None false) = inr res0
    /\ decomposition centroid_points "eigh" None
       = Some (centroid_eigvals, centroid_eigvecs,
               "Principal Coordinate Analysis")
    /\ num_positive
         (fst (sort_descending (snap_close_to_zero centroid_eigvals)
                 centroid_eigvecs)) = 3
    /\ s_values (eigvals res)
       = [0x1.1583714702471p+60; 64; 0; 0; 0]%float
    /\ has_shape (df_values (samples res)) 5 5
    /\ PrimFloat.is_nan (nth 3 (nth 0 (df_values (samples res)) []) fzero)
       = true
    /\ PrimFloat.is_nan (nth 4 (nth 0 (df_values (samples res)) []) fzero)
       = true
    /\ nth 0 (df_values (samples res0)) [] = [0; 0; 0; 0; 0]%float.
Proof.
  eexists. eexists.
  split; [vm_compute; reflexivity|].
  split; [vm_compute; reflexivity|].
  split; [vm_compute; reflexivity|].
  split; [vm_compute; reflexivity|].
  split; [vm_compute; reflexivity|].
  split; [split; [reflexivity | vm_compute; repeat constructor]|].
  split; [vm_compute; reflexivity|].
  split; vm_compute; reflexivity.
Qed.

Lemma zero_row_is_divided_by_its_norm_witness :
  exists res,
    outcome (pcoa centroid_points "eigh" None true) = inr res
    /\ ordered_on (fzero :: centroid_eigvals)
    /\ (forall k, k < length centroid_eigvals ->
          fleb fzero (nth k (snap_close_to_zero centroid_eigvals) fzero)
          = true ->
          nth k (nth 0 centroid_eigvecs []) fzero = fzero)
    /\ forall j, j < length centroid_eigvals ->
         nth j (nth 0 (df_values (samples res)) []) fzero
         = fmul (fdiv fzero (norm (repeat fzero (length centroid_eigvals))))
             (fsqrt (nth j (s_values (eigvals res)) fzero)).
Proof.
  assert (Hd : decomposition centroid_points "eigh" None
               = Some (centroid_eigvals, centroid_eigvecs,
                       "Principal Coordinate Analysis"))
    by (vm_compute; reflexivity).
  destruct (outcome (pcoa centroid_points "eigh" None true)) as [e|res]
    eqn:Hr; [vm_compute in Hr; discriminate|].
  exists res. split; [reflexivity|].
  assert (Ho : ordered_on (fzero :: centroid_eigvals))
    by (apply ordered_onb_sound; vm_compute; reflexivity).
  assert (Hi : 0 < length centroid_eigvecs) by (simpl; lia).
  assert (Hz : forall k, k < length centroid_eigvals ->
            fleb fzero (nth k (snap_close_to_zero centroid_eigvals) fzero)
            = true ->
            nth k (nth 0 centroid_eigvecs []) fzero = fzero).
  { intros k Hk.
    do 5 (destruct k as [|k]; [vm_compute; intros H;
                               first [reflexivity | discriminate]|]).
    simpl in Hk. lia. }
  split; [exact Ho|]. split; [exact Hz|].
  exact (@zero_row_is_divided_by_its_norm float _ _ centroid_points "eigh"
           None _ _ _ res 0 Hd Hr Ho Hi Hz).
Defined.

Lemma truncated_axes_are_zero_witness :
  exists res,
    outcome (pcoa four_points "eigh" None true) = inr res
    /\ num_positive
         (fst (sort_descending (snap_close_to_zero four_points_eigvals)
                 four_points_eigvecs)) <= 3
    /\ nth 3 (s_values (eigvals res)) fzero = fzero
    /\ Forall (fun row => nth 3 row fzero = fzero)
         (o_eigvecs (ordinate four_points_eigvals four_points_eigvecs true))
    /\ Forall (fun row => nth 3 row fzero = fzero) (df_values (samples res))
    /\ length (s_values (eigvals res)) = length four_points_eigvals
    /\ has_shape (df_values (samples res)) (length four_points_eigvecs)
         (length four_points_eigvals).
Proof.
  assert (Hd : decomposition four_points "eigh" None
               = Some (four_points_eigvals, four_points_eigvecs,
                       "Principal Coordinate Analysis"))
    by (vm_compute; reflexivity).
  destruct (outcome (pcoa four_points "eigh" None true)) as [e|res] eqn:Hr;
    [vm_compute in Hr; discriminate|].
  exists res. split; [reflexivity|].
  assert (Hmul : fmul fzero (fsqrt fzero) = (fzero : float))
    by (vm_compute; reflexivity).
  assert (Hdiv : true = true ->
            Forall (fun row => fdiv fzero (norm row) = (fzero : float))
              (snd (truncate
                 (fst (sort_descending
                         (snap_close_to_zero four_points_eigvals)
                         four_points_eigvecs))
                 (snd (sort_descending
                         (snap_close_to_zero four_points_eigvals)
                         four_points_eigvecs)))))
    by (intros _; vm_compute; repeat constructor).
  assert (Hp : num_positive
                 (fst (sort_descending
                         (snap_close_to_zero four_points_eigvals)
                         four_points_eigvecs)) <= 3)
    by (vm_compute; lia).
  assert (Hj : 3 < length four_points_eigvals) by (simpl; lia).
  split; [exact Hp|].
  exact (@truncated_axes_are_zero float _ _ four_points "eigh" None true
           _ _ _ res 3 Hd Hr Hmul Hdiv Hp Hj).
Defined.

Lemma eigenpairs_sorted_together_witness :
  exists res,
    outcome (pcoa four_points "eigh" None true) = inr res
    /\ ordered_on (fzero :: four_points_eigvals)
    /\ let snapped := snap_close_to_zero four_points_eigvals in
       let p := num_positive snapped in
       exists sigma : list nat,
         Permutation sigma (seq 0 (length four_points_eigvals))
         /\ descending (take sigma snapped)
         /\ descending (s_values (eigvals res))
         /\ forall j, j < length four_points_eigvals ->
            let lam := if j <? p then nth (nth j sigma 0) snapped fzero
                       else fzero in
            nth j (s_values (eigvals res)) fzero = lam
            /\ forall i, i < length four_points_eigvecs ->
               let row := nth i four_points_eigvecs [] in
               let e := if j <? p then nth (nth j sigma 0) row fzero
                        else fzero in
               nth j (nth i (df_values (samples res)) []) fzero
               = fmul (fdiv e (norm (zero_from p (take sigma row))))
                   (fsqrt lam).
Proof.
  assert (Hd : decomposition four_points "eigh" None
               = Some (four_points_eigvals, four_points_eigvecs,
                       "Principal Coordinate Analysis"))
    by (vm_compute; reflexivity).
  destruct (outcome (pcoa four_points "eigh" None true)) as [e|res] eqn:Hr;
    [vm_compute in Hr; discriminate|].
  exists res. split; [reflexivity|].
  assert (Ho : ordered_on (fzero :: four_points_eigvals))
    by (apply ordered_onb_sound; vm_compute; reflexivity).
  split; [exact Ho|].
  exact (eigenpairs_sorted_together four_points "eigh" None true Hd Hr Ho).
Defined.

Lemma returned_eigvals_nonnegative_witness :
  exists res,
    outcome (pcoa four_points "eigh" None false) = inr res
    /\ ordered_on (fzero :: four_points_eigvals)
    /\ Forall (fun x => fleb fzero x = true) (s_values (eigvals res))
    /\ df_values (samples res)
       = map (fun row =>
                map2 fmul row (map fsqrt (s_values (eigvals res))))
           (o_eigvecs (ordinate four_points_eigvals four_points_eigvecs
                         false)).
Proof.
  assert (Hd : decomposition four_points "eigh" None
               = Some (four_points_eigvals, four_points_eigvecs,
                       "Principal Coordinate Analysis"))
    by (vm_compute; reflexivity).
  destruct (outcome (pcoa four_points "eigh" None false)) as [e|res] eqn:Hr;
    [vm_compute in Hr; discriminate|].
  exists res. split; [reflexivity|].
  assert (Ho : ordered_on (fzero :: four_points_eigvals))
    by (apply ordered_onb_sound; vm_compute; reflexivity).
  split; [exact Ho|].
  exact (returned_eigvals_nonnegative four_points "eigh" None false
           Hd Hr Ho).
Defined.

(** * Further properties of [_fsvd] *)

Section SketchWidth.
Context {F : Type} {SF : Scalar F}.

(** X1: without the power method the sketch of an n-by-n matrix and an
    n-by-k probe has [k * 2 ^ max 1 num_levels] columns: the second
    block is stacked even for [num_levels <= 0], and every further level
    doubles the width. *)
Theorem sketch_krylov_width (A G : matrix F) (n k : nat) (num_levels : Z) :
  has_shape A n n -> has_shape G n k -> 0 < n ->
  has_shape (sketch A G false num_levels) n
    (k * 2 ^ Z.to_nat (Z.max 1 num_levels)).
Proof.
  intros HA HG Hn.
  destruct (Z.le_gt_cases 1 num_levels) as [HL|HL].
  - rewrite Z.max_r by assumption. now apply sketch_krylov_shape.
  - rewrite Z.max_l by lia. change (2 ^ Z.to_nat 1) with 2.
    unfold sketch, range_len.
    replace (Z.to_nat (num_levels + 2 - 3)) with 0 by lia.
    simpl Nat.iter. replace (k * 2) with (k + k) by lia.
    now apply first_blocks_shape.
Qed.

(** X2: with the power method the sketch has the shape of the probe,
    whatever [num_levels] is: nothing is stacked. *)
Theorem sketch_power_width (A G : matrix F) (n k : nat) (num_levels : Z) :
  has_shape A n n -> has_shape G n k -> 0 < n ->
  has_shape (sketch A G true num_levels) n k
  /\ sketch A G true num_levels
     = Nat.iter (Z.to_nat num_levels) (fun H => dot A (dot A H)) (dot A G).
Proof.
  intros HA HG Hn. split.
  - now apply sketch_power_shape.
  - unfold sketch, range_len. f_equal. lia.
Qed.

(** In both branches the sketch is at least as wide as the probe. *)
Lemma sketch_wide (A G : matrix F) (n k : nat) (upm : bool) (L : Z) :
  has_shape A n n -> has_shape G n k -> 0 < n ->
  exists w, has_shape (sketch A G upm L) n w /\ k <= w.
Proof.
  intros HA HG Hn. destruct upm.
  - exists k. split; [now apply sketch_power_shape | lia].
  - exists (k * 2 ^ Z.to_nat (Z.max 1 L)). split.
    + destruct (Z.le_gt_cases 1 L) as [HL|HL].
      * rewrite Z.max_r by assumption. now apply sketch_krylov_shape.
      * rewrite Z.max_l by lia. change (2 ^ Z.to_nat 1) with 2.
        unfold sketch, range_len.
        replace (Z.to_nat (L + 2 - 3)) with 0 by lia.
        simpl Nat.iter. replace (k * 2) with (k + k) by lia.
        now apply first_blocks_shape.
    + assert (0 < 2 ^ Z.to_nat (Z.max 1 L))
        by (apply Nat.neq_0_lt_0, Nat.pow_nonzero; lia).
      nia.
Qed.

Lemma transpose_shape (A : matrix F) (r c : nat) :
  has_shape A r c -> 0 < r -> has_shape (transpose A) c r.
Proof.
  intros HA Hr. unfold transpose.
  rewrite (ncols_of_shape HA Hr). destruct HA as [Hl _]. split.
  - now rewrite length_map, length_seq.
  - apply Forall_forall. intros row Hrow.
    apply in_map_iff in Hrow. destruct Hrow as [j [<- _]].
    unfold col. now rewrite length_map.
Qed.

Lemma slice_upto_length (A : Type) (d : Z) (l : list A) :
  (0 <= d)%Z -> length (slice_upto d l) = Nat.min (Z.to_nat d) (length l).
Proof.
  intros Hd. unfold slice_upto.
  apply Z.leb_le in Hd. rewrite Hd. apply length_firstn.
Qed.

Lemma slice_columns_shape (A : matrix F) (r c : nat) (d : Z) :
  has_shape A r c -> (0 <= d)%Z ->
  has_shape (map (slice_upto d) A) r (Nat.min (Z.to_nat d) c).
Proof.
  intros [Hl Hr] Hd. split.
  - now rewrite length_map.
  - apply Forall_forall. intros row Hrow.
    apply in_map_iff in Hrow. destruct Hrow as [r0 [<- Hin]].
    rewrite slice_upto_length by assumption.
    eapply Forall_forall in Hr; [|eassumption]. now rewrite Hr.
Qed.

End SketchWidth.

Section FsvdRuns.
Context {F : Type} {SF : Scalar F} {BF : Backend F}.

(** What [_fsvd] returns on a square matrix when both factorisations
    return, in terms of its intermediate arrays. *)
Lemma fsvd_run (A : matrix F) (d : Z) (upm : bool) (L : Z) :
  nrows A = ncols A -> (-2 <= d)%Z ->
  (exists r, qr (fsvd_H A d upm L) = inr r) ->
  (exists r, svd (fsvd_T A d upm L) = inr r) ->
  _fsvd A d upm L
  = ([EvStandardNormal; EvQR; EvSVD],
     inr (map (fun s => fmul s s) (slice_upto d (fsvd_St A d upm L)),
          map (slice_upto d)
            (dot (fsvd_Q A d upm L) (transpose (fsvd_W A d upm L))))).
Proof.
  intros He Hd [rq Hq] [rs Hs].
  rewrite fsvd_square_run by assumption.
  unfold fsvd_St, fsvd_W, fsvd_T, fsvd_Q in *.
  rewrite Hq in *. destruct rq as [Q R].
  rewrite Hs. destruct rs as [[Vt St] W]. reflexivity.
Qed.

(** A factorisation that raised has left no array of the expected shape:
    when the shapes fit, both [qr] and [svd] returned. *)
Lemma fsvd_shapes_fit_returned (A : matrix F) (d : Z) (upm : bool) (L : Z)
  (n : nat) :
  has_shape A n n -> 0 < n -> (0 <= d)%Z ->
  fsvd_shapes_fit A d upm L ->
  (exists r, qr (fsvd_H A d upm L) = inr r)
  /\ (exists r, svd (fsvd_T A d upm L) = inr r).
Proof.
  intros HA Hn Hd Hfit.
  pose proof (ncols_of_shape HA Hn) as Hc.
  unfold fsvd_shapes_fit in Hfit. rewrite Hc in Hfit. cbv zeta in Hfit.
  destruct Hfit as [HG [HQ [HS HW]]].
  destruct (sketch_wide upm L HA HG Hn) as [w [HH Hw]].
  fold (fsvd_H A d upm L) in HH.
  rewrite (ncols_of_shape HH Hn) in HQ.
  assert (HT : has_shape (fsvd_T A d upm L) n (Nat.min n w))
    by (unfold fsvd_T; now apply dot_square_shape).
  rewrite (ncols_of_shape HT Hn) in HW.
  split.
  - unfold fsvd_Q in HQ.
    destruct (qr (fsvd_H A d upm L)) as [e|r]; [|now exists r].
    destruct HQ as [HQl _]. simpl in HQl. lia.
  - unfold fsvd_W in HW.
    destruct (svd (fsvd_T A d upm L)) as [e|r]; [|now exists r].
    destruct HW as [HWl _]. simpl in HWl. lia.
Qed.

(** The shapes of what [_fsvd] returns, from the shapes of what the
    collaborators return. *)
Lemma fsvd_run_shape (A : matrix F) (d : Z) (upm : bool) (L : Z) (n : nat) :
  has_shape A n n -> 0 < n -> (0 <= d)%Z ->
  fsvd_shapes_fit A d upm L ->
  length (slice_upto d (fsvd_St A d upm L)) = Nat.min (Z.to_nat d) n
  /\ has_shape
       (map (slice_upto d)
          (dot (fsvd_Q A d upm L) (transpose (fsvd_W A d upm L))))
       n (Nat.min (Z.to_nat d) n).
Proof.
  intros HA Hn Hd Hfit.
  pose proof (ncols_of_shape HA Hn) as Hc.
  unfold fsvd_shapes_fit in Hfit. rewrite Hc in Hfit. cbv zeta in Hfit.
  destruct Hfit as [HG [HQ [HS HW]]].
  destruct (sketch_wide upm L HA HG Hn) as [w [HH Hw]].
  fold (fsvd_H A d upm L) in HH.
  rewrite (ncols_of_shape HH Hn) in HQ.
  assert (HT : has_shape (fsvd_T A d upm L) n (Nat.min n w))
    by (unfold fsvd_T; now apply dot_square_shape).
  rewrite (ncols_of_shape HT Hn) in HS, HW.
  replace (Nat.min n (Nat.min n w)) with (Nat.min n w) in HS, HW by lia.
  assert (Hpos : 0 < Nat.min n w) by lia.
  pose proof (transpose_shape HW Hpos) as HWt.
  assert (HU : has_shape
                 (dot (fsvd_Q A d upm L) (transpose (fsvd_W A d upm L)))
                 n (Nat.min n w)).
  { pose proof (dot_shape (fsvd_Q A d upm L)
                  (transpose (fsvd_W A d upm L))) as Hdot.
    destruct HQ as [HQl HQr]. unfold nrows in Hdot. rewrite HQl in Hdot.
    now rewrite (ncols_of_shape HWt Hpos) in Hdot. }
  split.
  - rewrite slice_upto_length by assumption. rewrite HS. lia.
  - replace (Nat.min (Z.to_nat d) n)
      with (Nat.min (Z.to_nat d) (Nat.min n w)) by lia.
    now apply slice_columns_shape.
Qed.

(** X4: for [0 <= dimension], [_fsvd] returns [min dimension n] eigenvalues
    and as many eigenvector columns, each of length [n]: [dimension]
    eigenpairs up to [n], and never more than [n]. *)
Theorem fsvd_output_shape (A : matrix F) (d : Z) (upm : bool) (L : Z)
  (n : nat) :
  has_shape A n n -> 0 < n -> (0 <= d)%Z ->
  fsvd_shapes_fit A d upm L ->
  exists S U,
    outcome (_fsvd A d upm L) = inr (S, U)
    /\ length S = Nat.min (Z.to_nat d) n
    /\ has_shape U n (Nat.min (Z.to_nat d) n).
Proof.
  intros HA Hn Hd Hfit.
  destruct (fsvd_run_shape HA Hn Hd Hfit) as [HS HU].
  assert (He : nrows A = ncols A).
  { rewrite (ncols_of_shape HA Hn). now destruct HA. }
  destruct (fsvd_shapes_fit_returned HA Hn Hd Hfit) as [Hq Hs].
  eexists. eexists. rewrite fsvd_run by (assumption || lia).
  split; [reflexivity|]. split; [|exact HU].
  now rewrite length_map.
Qed.

End FsvdRuns.

(** * Further properties of [pcoa] *)

Section Packaging.
Context {F : Type} {SF : Scalar F} {BF : Backend F}.

Lemma axis_labels_count (d : Z) : length (axis_labels d) = Z.to_nat d.
Proof.
  unfold axis_labels, range_len. rewrite length_map, length_seq. lia.
Qed.

Lemma package_misfit (o : @Ordination F) (ids : list string) (d : Z)
  (name : string) :
  length (o_eigvals o) <> Z.to_nat d ->
  package o ids d name = inl ValueError_length_mismatch.
Proof.
  intros Hne. unfold package, pd_Series.
  rewrite axis_labels_count.
  apply Nat.eqb_neq in Hne. now rewrite Hne.
Qed.

Lemma package_fit (o : @Ordination F) (ids : list string) (d : Z)
  (name : string) :
  length (o_eigvals o) = Z.to_nat d ->
  has_shape (o_coordinates o) (length ids) (Z.to_nat d) ->
  length (o_proportion o) = Z.to_nat d ->
  exists res, package o ids d name = inr res.
Proof.
  intros He [Hc Hr] Hp. unfold package, pd_Series, pd_DataFrame, nrows.
  rewrite axis_labels_count, He, Hp, Hc, !Nat.eqb_refl. simpl.
  replace (forallb _ _) with true; [eexists; reflexivity|].
  symmetry. apply forallb_forall. intros r Hin.
  eapply Forall_forall in Hr; [|eassumption].
  rewrite Hr. apply Nat.eqb_refl.
Qed.

Lemma package_labels (o : @Ordination F) (ids : list string) (d : Z)
  (name : string) (res : OrdinationResults F) :
  package o ids d name = inr res ->
  s_index (eigvals res) = axis_labels d
  /\ df_columns (samples res) = axis_labels d
  /\ s_index (proportion_explained res) = axis_labels d
  /\ df_index (samples res) = ids
  /\ long_method_name res = name.
Proof.
  unfold package, pd_Series, pd_DataFrame. intros H.
  destruct (length (o_eigvals o) =? _); [|discriminate].
  destruct (_ && _); [|discriminate].
  destruct (length (o_proportion o) =? _); [|discriminate].
  injection H as <-. simpl. repeat split.
Qed.

(** Whether [pcoa] returns, once the decomposition has. *)
Lemma pcoa_fits_or_fails (dm : DistanceMatrix F) (method : string)
  (td : option Z) (nz : bool) (ev : vector F) (vecs : matrix F)
  (name : string) :
  decomposition dm method td = Some (ev, vecs, name) ->
  has_shape vecs (length (dm_ids dm)) (length ev) ->
  let d := resolve_dimension td
             (center_distance_matrix_optimized (dm_data dm)) in
  (length ev = Z.to_nat d ->
   exists res, outcome (pcoa dm method td nz) = inr res)
  /\ (length ev <> Z.to_nat d ->
      outcome (pcoa dm method td nz) = inl ValueError_length_mismatch).
Proof.
  intros Hd [Hl Hr] d. subst d.
  erewrite pcoa_after_decomposition by exact Hd. unfold outcome. cbn [snd].
  split.
  - intros Hfit. apply package_fit.
    + now rewrite ordinate_eigvals_length.
    + pose proof (ordinate_coordinates_shape ev vecs nz) as H.
      now rewrite Hl, Hfit in H.
    + rewrite ordinate_proportion. unfold proportion.
      now rewrite length_map, ordinate_eigvals_length.
  - intros Hne. apply package_misfit.
    now rewrite ordinate_eigvals_length.
Qed.

(** X5: [pcoa] returns a result exactly when [to_dimension] (the matrix
    size when omitted, zero when negative) is the number of eigenpairs
    the decomposition delivered; otherwise the eigenvalues do not fit
    the axis labels and the call ends in the [ValueError] of pandas. *)
Theorem pcoa_returns_iff_axes_fit (dm : DistanceMatrix F) (method : string)
  (td : option Z) (nz : bool) (ev : vector F) (vecs : matrix F)
  (name : string) :
  decomposition dm method td = Some (ev, vecs, name) ->
  has_shape vecs (length (dm_ids dm)) (length ev) ->
  let d := resolve_dimension td
             (center_distance_matrix_optimized (dm_data dm)) in
  ((exists res, outcome (pcoa dm method td nz) = inr res)
   <-> length ev = Z.to_nat d)
  /\ (length ev <> Z.to_nat d ->
      outcome (pcoa dm method td nz) = inl ValueError_length_mismatch).
Proof.
  intros Hd Hs d.
  destruct (pcoa_fits_or_fails dm method td nz Hd Hs) as [Hfit Hmis].
  fold d in Hfit, Hmis. split; [|exact Hmis]. split.
  - intros [res Hres].
    destruct (Nat.eq_dec (length ev) (Z.to_nat d)) as [E|E]; [exact E|].
    rewrite (Hmis E) in Hres. discriminate.
  - exact Hfit.
Qed.

Lemma label_injective (i j : nat) :
  0 < i -> 0 < j ->
  String.append "PC" (NilZero.string_of_uint (Nat.to_uint i))
  = String.append "PC" (NilZero.string_of_uint (Nat.to_uint j)) ->
  i = j.
Proof.
  intros Hi Hj H. simpl in H. injection H as H.
  assert (Hnil : forall n, 0 < n -> Nat.to_uint n <> Decimal.Nil).
  { intros n Hn E. pose proof (DecimalNat.Unsigned.of_to n) as Hof.
    rewrite E in Hof. change (0 = n) in Hof. lia. }
  pose proof (NilZero.usu _ (Hnil i Hi)) as Ui.
  pose proof (NilZero.usu _ (Hnil j Hj)) as Uj.
  rewrite H in Ui. rewrite Ui in Uj. injection Uj as Uj.
  now apply DecimalNat.Unsigned.to_uint_inj.
Qed.

(** X6: the axis labels of a returned result are [PC1 ... PCk] for
    [k = max 0 to_dimension], pairwise distinct, and the same labels
    index the eigenvalues, the coordinate columns and the proportions;
    the rows of the coordinates are indexed by the ids. *)
Theorem result_labels (dm : DistanceMatrix F) (method : string)
  (td : option Z) (nz : bool) (ev : vector F) (vecs : matrix F)
  (name : string) (res : OrdinationResults F) :
  decomposition dm method td = Some (ev, vecs, name) ->
  outcome (pcoa dm method td nz) = inr res ->
  let d := resolve_dimension td
             (center_distance_matrix_optimized (dm_data dm)) in
  s_index (eigvals res) = axis_labels d
  /\ df_columns (samples res) = axis_labels d
  /\ s_index (proportion_explained res) = axis_labels d
  /\ df_index (samples res) = dm_ids dm
  /\ length (axis_labels d) = Z.to_nat d
  /\ NoDup (axis_labels d).
Proof.
  intros Hd Hr d. subst d.
  erewrite pcoa_after_decomposition in Hr by exact Hd.
  unfold outcome in Hr. cbn [snd] in Hr.
  apply package_labels in Hr.
  destruct Hr as [E1 [E2 [E3 [E4 _]]]].
  repeat split; try assumption.
  - apply axis_labels_count.
  - unfold axis_labels.
    apply NoDup_map_NoDup_ForallPairs; [|apply seq_NoDup].
    intros i j Hi Hj. apply in_seq in Hi. apply in_seq in Hj.
    apply label_injective; lia.
Qed.

End Packaging.

Section ApproximatePath.
Context {F : Type} {SF : Scalar F} {BF : Backend F}.

(** What the approximate path hands to the rest of [pcoa]. *)
Lemma decomposition_fsvd (dm : DistanceMatrix F) (td : option Z) :
  DistanceMatrix_valid dm = true ->
  let A := center_distance_matrix_optimized (dm_data dm) in
  let d := resolve_dimension td A in
  nrows A = ncols A -> (-2 <= d)%Z ->
  (exists r, qr (fsvd_H A d false 1) = inr r) ->
  (exists r, svd (fsvd_T A d false 1) = inr r) ->
  decomposition dm "fsvd" td
  = Some (map (fun s => fmul s s) (slice_upto d (fsvd_St A d false 1)),
          map (slice_upto d)
            (dot (fsvd_Q A d false 1) (transpose (fsvd_W A d false 1))),
          "Approximate Principal Coordinate Analysis using FSVD").
Proof.
  intros Hv A d He Hd Hq Hs. unfold decomposition, decompose. rewrite Hv.
  fold A. fold d. simpl String.eqb. cbv iota.
  rewrite fsvd_run by assumption. reflexivity.
Qed.

Lemma decompose_fsvd_trace (A : matrix F) (d : Z) :
  nrows A = ncols A -> (-2 <= d)%Z ->
  (exists r, qr (fsvd_H A d false 1) = inr r) ->
  (exists r, svd (fsvd_T A d false 1) = inr r) ->
  trace (decompose "fsvd" A d) = [EvStandardNormal; EvQR; EvSVD].
Proof.
  intros He Hd Hq Hs. unfold decompose. simpl String.eqb. cbv iota.
  rewrite fsvd_run by assumption. reflexivity.
Qed.

(** X7: on the approximate path every [to_dimension] from 0 to [n] is
    served: the result has exactly [to_dimension] axes, an empty
    ordination for 0. *)
Theorem pcoa_fsvd_axes (dm : DistanceMatrix F) (d : Z) (nz : bool)
  (n : nat) :
  DistanceMatrix_valid dm = true ->
  let A := center_distance_matrix_optimized (dm_data dm) in
  has_shape A n n -> 0 < n -> length (dm_ids dm) = n ->
  (0 <= d <= Z.of_nat n)%Z ->
  fsvd_shapes_fit A d false 1 ->
  exists res,
    outcome (pcoa dm "fsvd" (Some d) nz) = inr res
    /\ length (s_values (eigvals res)) = Z.to_nat d
    /\ has_shape (df_values (samples res)) n (Z.to_nat d)
    /\ length (s_values (proportion_explained res)) = Z.to_nat d.
Proof.
  intros Hv A HA Hn Hi Hd Hfit.
  assert (He : nrows A = ncols A).
  { rewrite (ncols_of_shape HA Hn). now destruct HA. }
  assert (Hd2 : (-2 <= d)%Z) by lia.
  destruct (fsvd_shapes_fit_returned HA Hn (proj1 Hd) Hfit) as [Hq Hs].
  pose proof (@decomposition_fsvd dm (Some d) Hv He Hd2 Hq Hs) as Hdec.
  fold A in Hdec. simpl resolve_dimension in Hdec.
  destruct (fsvd_run_shape HA Hn (proj1 Hd) Hfit) as [HS HU].
  replace (Nat.min (Z.to_nat d) n) with (Z.to_nat d) in HS, HU by lia.
  assert (Hlen : length (map (fun s => fmul s s)
                   (slice_upto d (fsvd_St A d false 1))) = Z.to_nat d)
    by now rewrite length_map.
  assert (Hshape : has_shape
            (map (slice_upto d)
               (dot (fsvd_Q A d false 1) (transpose (fsvd_W A d false 1))))
            (length (dm_ids dm))
            (length (map (fun s => fmul s s)
                       (slice_upto d (fsvd_St A d false 1)))))
    by now rewrite Hlen, Hi.
  destruct (pcoa_fits_or_fails dm "fsvd" (Some d) nz Hdec Hshape)
    as [Hfits _].
  destruct (Hfits Hlen) as [res Hres].
  exists res. split; [exact Hres|].
  destruct (pcoa_result dm "fsvd" (Some d) nz Hdec Hres) as [E1 [E2 E3]].
  rewrite E1, E2, E3, ordinate_proportion. unfold proportion.
  rewrite length_map, ordinate_eigvals_length, Hlen.
  split; [reflexivity|]. split; [|reflexivity].
  pose proof (ordinate_coordinates_shape
                (map (fun s => fmul s s) (slice_upto d (fsvd_St A d false 1)))
                (map (slice_upto d)
                   (dot (fsvd_Q A d false 1)
                      (transpose (fsvd_W A d false 1)))) nz) as Hc.
  destruct HU as [HUl _]. now rewrite Hlen, HUl in Hc.
Qed.

(** X8: with [to_dimension > n] the approximate path performs the whole
    decomposition, obtains only [n] eigenpairs, and then fails on the
    [to_dimension] axis labels. *)
Theorem pcoa_fsvd_dimension_above_n (dm : DistanceMatrix F) (d : Z)
  (nz : bool) (n : nat) :
  DistanceMatrix_valid dm = true ->
  let A := center_distance_matrix_optimized (dm_data dm) in
  has_shape A n n -> 0 < n -> (Z.of_nat n < d)%Z ->
  fsvd_shapes_fit A d false 1 ->
  outcome (pcoa dm "fsvd" (Some d) nz) = inl ValueError_length_mismatch
  /\ incl [EvCenter; EvStandardNormal; EvQR; EvSVD]
       (trace (pcoa dm "fsvd" (Some d) nz)).
Proof.
  intros Hv A HA Hn Hd Hfit.
  assert (He : nrows A = ncols A).
  { rewrite (ncols_of_shape HA Hn). now destruct HA. }
  assert (Hd0 : (0 <= d)%Z) by lia.
  assert (Hd2 : (-2 <= d)%Z) by lia.
  destruct (fsvd_shapes_fit_returned HA Hn Hd0 Hfit) as [Hq Hs].
  pose proof (@decomposition_fsvd dm (Some d) Hv He Hd2 Hq Hs) as Hdec.
  fold A in Hdec. simpl resolve_dimension in Hdec.
  destruct (fsvd_run_shape HA Hn Hd0 Hfit) as [HS _].
  replace (Nat.min (Z.to_nat d) n) with n in HS by lia.
  erewrite pcoa_after_decomposition by exact Hdec.
  fold A. simpl resolve_dimension.
  unfold outcome, trace at 1. cbn [fst snd]. split.
  - apply package_misfit.
    rewrite ordinate_eigvals_length, length_map, HS. lia.
  - rewrite decompose_fsvd_trace by assumption.
    intros e He'. simpl in He'. simpl. tauto.
Qed.

(** X9: the eigenvalues of the approximate path are squares, so that path
    never emits the negative-eigenvalue warning, provided a square is
    never [< 0] (NaN included) and zero is not [< 0]. *)
Theorem pcoa_fsvd_never_warns (dm : DistanceMatrix F) (td : option Z)
  (nz : bool) :
  let A := center_distance_matrix_optimized (dm_data dm) in
  let d := resolve_dimension td A in
  (forall s, In s (slice_upto d (fsvd_St A d false 1)) ->
             fltb (fmul s s) fzero = false) ->
  fltb fzero fzero = false ->
  forall lo hi, ~ In (EvWarn lo hi) (trace (pcoa dm "fsvd" td nz)).
Proof.
  intros A d Hsq Hz lo hi Hin.
  unfold pcoa in Hin.
  destruct (DistanceMatrix_valid dm) eqn:Hv; [|simpl in Hin; tauto].
  simpl in Hin. fold A in Hin. fold d in Hin.
  destruct (Nat.eq_dec (nrows A) (ncols A)) as [He|He].
  2:{ unfold decompose in Hin. simpl String.eqb in Hin. cbv iota in Hin.
      rewrite fsvd_not_square in Hin by assumption. simpl in Hin.
      destruct Hin as [H|[]]. discriminate. }
  destruct (Z_lt_le_dec d (-2)) as [Hd|Hd].
  { unfold decompose in Hin. simpl String.eqb in Hin. cbv iota in Hin.
    rewrite fsvd_negative_probe in Hin by (assumption || lia).
    simpl in Hin. destruct Hin as [H|[]]. discriminate. }
  unfold decompose in Hin. simpl String.eqb in Hin. cbv iota in Hin.
  rewrite fsvd_square_run in Hin by assumption.
  unfold fsvd_St, fsvd_T, fsvd_Q in Hsq.
  destruct (qr (fsvd_H A d false 1)) as [e|[Q R]].
  { simpl in Hin. intuition discriminate. }
  destruct (svd (dot A Q)) as [e|[[Vt St] W]].
  { simpl in Hin. intuition discriminate. }
  simpl in Hin. unfold warn_negative in Hin.
  destruct (any_negative _) eqn:Hneg.
  2:{ simpl in Hin. intuition discriminate. }
  exfalso. clear Hin.
  unfold any_negative in Hneg. apply existsb_exists in Hneg.
  destruct Hneg as [x [Hx Hlt]].
  unfold snap_close_to_zero in Hx. apply in_map_iff in Hx.
  destruct Hx as [y [Hy Hiny]].
  apply in_map_iff in Hiny. destruct Hiny as [s [<- Hs]].
  destruct (fisclose (fmul s s) fzero); subst x.
  - congruence.
  - rewrite (Hsq s Hs) in Hlt. discriminate.
Qed.

End ApproximatePath.

Section Clamping.
Context {F : Type} {SF : Scalar F} {BF : Backend F}.

Lemma count_below_length (f : F -> bool) (v : vector F) :
  count f v < length v <-> exists x, In x v /\ f x = false.
Proof.
  unfold count. induction v as [|a v IH]; simpl.
  - split; [lia | intros [x [[] _]]].
  - pose proof (filter_length_le f v) as Hle.
    destruct (f a) eqn:E; simpl; split.
    + intros H. apply Nat.succ_lt_mono in H. apply IH in H.
      destruct H as [x [Hx Hf]]. exists x. auto.
    + intros [x [[<-|Hx] Hf]]; [congruence|].
      apply -> Nat.succ_lt_mono. apply IH. now exists x.
    + intros _. exists a. auto.
    + intros _. lia.
Qed.

(** In a descending list, zeroing from [num_positive] on is replacing
    every value that is not [>= 0] by zero. *)
Lemma zero_from_clamps (v : vector F) :
  ordered_on (fzero :: v) -> descending v ->
  zero_from (num_positive v) v
  = map (fun x => if fleb fzero x then x else fzero) v.
Proof.
  intros Ho Hd. induction Hd as [|a v Hd IH Ha].
  - reflexivity.
  - assert (Ho' : ordered_on (fzero :: v)).
    { apply (ordered_on_incl Ho). intros x [<-|Hx];
        [now left | now right; right]. }
    specialize (IH Ho').
    unfold num_positive, count, zero_from in *. simpl.
    destruct (fleb fzero a) eqn:E; simpl.
    + now rewrite IH.
    + assert (Hall : forall x, In x v -> fleb fzero x = false).
      { intros x Hx. destruct (fleb fzero x) eqn:Ex; [|reflexivity].
        pose proof (proj1 (Forall_forall _ _) Ha x Hx) as Hxa.
        destruct Ho as [_ Htr]. rewrite <- E. symmetry.
        apply (Htr fzero x a); simpl; auto. }
      rewrite filter_none by exact Hall. simpl. f_equal.
      clear - Hall. induction v as [|b v IHv]; simpl; [reflexivity|].
      rewrite (Hall b) by now left. f_equal.
      apply IHv. intros x Hx. apply Hall. now right.
Qed.

(** X10: truncation loses no information about the non-negative part of the
    spectrum: the returned eigenvalues are, up to their order, the
    snapped eigenvalues with every negative one replaced by zero. *)
Theorem returned_eigvals_are_clamped (dm : DistanceMatrix F)
  (method : string) (td : option Z) (nz : bool) (ev : vector F)
  (vecs : matrix F) (name : string) (res : OrdinationResults F) :
  decomposition dm method td = Some (ev, vecs, name) ->
  outcome (pcoa dm method td nz) = inr res ->
  ordered_on (fzero :: ev) ->
  let clamp := fun x => if fleb fzero x then x else fzero in
  s_values (eigvals res)
  = map clamp (fst (sort_descending (snap_close_to_zero ev) vecs))
  /\ Permutation (s_values (eigvals res))
       (map clamp (snap_close_to_zero ev)).
Proof.
  intros Hd Hr Ho clamp.
  destruct (pcoa_result dm method td nz Hd Hr) as [E1 _].
  assert (Hc : s_values (eigvals res)
               = map clamp
                   (fst (sort_descending (snap_close_to_zero ev) vecs))).
  { rewrite E1, ordinate_eigvals. cbv zeta.
    apply zero_from_clamps.
    - now apply sorted_snapped_ordered.
    - now apply sorted_snapped_descending. }
  split; [exact Hc|].
  rewrite Hc. apply Permutation_map. simpl. apply sorted_eigvals_perm.
Qed.

(** Where a warning can come from. *)
Lemma warning_in_trace (dm : DistanceMatrix F) (method : string)
  (td : option Z) (nz : bool) (ev : vector F) (vecs : matrix F)
  (name : string) :
  decomposition dm method td = Some (ev, vecs, name) ->
  (exists lo hi, In (EvWarn lo hi) (trace (pcoa dm method td nz)))
  <-> any_negative (snap_close_to_zero ev) = true.
Proof.
  intros Hd. erewrite pcoa_after_decomposition by exact Hd.
  unfold trace at 1. cbn [fst]. unfold warn_negative. split.
  - intros [lo [hi [H|H]]]; [discriminate|].
    apply in_app_or in H. destruct H as [H|H].
    + now apply decompose_trace in H.
    + destruct (any_negative _); [reflexivity | simpl in H; tauto].
  - intros Hn. rewrite Hn. eexists. eexists.
    right. apply in_or_app. right. now left.
Qed.

(** X11: the warning is emitted exactly when at least one axis is zeroed by
    the truncation, as long as [x < 0] is the negation of [0 <= x] on
    the eigenvalues (they are not NaN). *)
Theorem warning_iff_axis_zeroed (dm : DistanceMatrix F) (method : string)
  (td : option Z) (nz : bool) (ev : vector F) (vecs : matrix F)
  (name : string) :
  decomposition dm method td = Some (ev, vecs, name) ->
  (forall x, In x (snap_close_to_zero ev) ->
             fltb x fzero = negb (fleb fzero x)) ->
  (exists lo hi, In (EvWarn lo hi) (trace (pcoa dm method td nz)))
  <-> num_positive (fst (sort_descending (snap_close_to_zero ev) vecs))
      < length ev.
Proof.
  intros Hd Hcoh.
  rewrite (warning_in_trace dm method td nz Hd).
  unfold num_positive. simpl fst.
  rewrite (count_perm _ (sorted_eigvals_perm (snap_close_to_zero ev))).
  rewrite <- (snap_length ev), count_below_length.
  unfold any_negative. rewrite existsb_exists.
  split; intros [x [Hx Hf]]; exists x; split; try assumption.
  - rewrite (Hcoh x Hx) in Hf. now apply negb_true_iff in Hf.
  - rewrite (Hcoh x Hx), Hf. reflexivity.
Qed.

End Clamping.

Section ErrorsAndIndependence.
Context {F : Type} {SF : Scalar F}.

(** X12: [_fsvd] stops before anything is drawn or factored exactly when
    the matrix is not square or the probe width [dimension + 2] is
    negative. The squareness check comes first and raises its own
    ValueError; a square matrix with a negative width gets the ValueError
    of the generator. In every other case the probe is drawn and [qr] is
    called, so that any further error is raised by a factorisation, after
    the draw. *)
Theorem fsvd_fails_iff {BF : Backend F} (A : matrix F) (d : Z) (upm : bool)
  (L : Z) :
  ((exists e, _fsvd A d upm L = ([], inl e))
   <-> nrows A <> ncols A \/ (d + 2 < 0)%Z)
  /\ (nrows A <> ncols A ->
      _fsvd A d upm L = ([], inl ValueError_expects_square))
  /\ (nrows A = ncols A -> (d + 2 < 0)%Z ->
      _fsvd A d upm L = ([], inl ValueError_negative_dimensions))
  /\ (nrows A = ncols A -> (0 <= d + 2)%Z ->
      incl [EvStandardNormal; EvQR] (trace (_fsvd A d upm L))).
Proof.
  assert (Hrun : nrows A = ncols A -> (0 <= d + 2)%Z ->
                 incl [EvStandardNormal; EvQR] (trace (_fsvd A d upm L))
                 /\ trace (_fsvd A d upm L) <> []).
  { intros He Hd. rewrite fsvd_square_run by (assumption || lia).
    destruct (qr _) as [e|[Q R]].
    - simpl. split; [apply incl_refl | discriminate].
    - destruct (svd _) as [e|[[Vt St] W]]; simpl;
        (split; [|discriminate]);
        intros x [<-|[<-|[]]]; simpl; tauto. }
  split; [|split; [|split]].
  - split.
    + intros [e H].
      destruct (Nat.eq_dec (nrows A) (ncols A)) as [He|He]; [|now left].
      destruct (Z_lt_le_dec (d + 2) 0) as [Hd|Hd]; [now right|].
      destruct (Hrun He Hd) as [_ Hne]. rewrite H in Hne.
      now contradiction Hne.
    + intros H.
      destruct (Nat.eq_dec (nrows A) (ncols A)) as [He|He].
      * destruct H as [H|H]; [contradiction|].
        eexists. now apply fsvd_negative_probe.
      * eexists. now apply fsvd_not_square.
  - intros He. now apply fsvd_not_square.
  - intros He Hd. now apply fsvd_negative_probe.
  - intros He Hd. now apply Hrun.
Qed.

(** X13: the exact path does not depend on the random generator nor on
    [qr] and [svd]: two backends that agree on the validation, the
    centering and [eigh] of this input give the same run. *)
Theorem exact_path_ignores_generator (B1 B2 : Backend F)
  (dm : DistanceMatrix F) (td : option Z) (nz : bool) :
  @DistanceMatrix_valid F B1 dm = @DistanceMatrix_valid F B2 dm ->
  @center_distance_matrix_optimized F B1 (dm_data dm)
  = @center_distance_matrix_optimized F B2 (dm_data dm) ->
  @eigh F B1 (@center_distance_matrix_optimized F B1 (dm_data dm))
  = @eigh F B2 (@center_distance_matrix_optimized F B2 (dm_data dm)) ->
  @pcoa F SF B1 dm "eigh" td nz = @pcoa F SF B2 dm "eigh" td nz.
Proof.
  intros Hv Hc He. unfold pcoa, decompose. rewrite Hv.
  destruct (@DistanceMatrix_valid F B2 dm); [|reflexivity].
  simpl. rewrite He, Hc. reflexivity.
Qed.

End ErrorsAndIndependence.

(** * Further worked examples in binary64 *)

Lemma sketch_krylov_width_witness :
  has_shape four_points_centered 4 4
  /\ has_shape (f64_standard_normal 4 3) 4 3
  /\ has_shape (sketch four_points_centered (f64_standard_normal 4 3) false 0)
       4 (3 * 2 ^ Z.to_nat (Z.max 1 0)).
Proof.
  assert (HA : has_shape four_points_centered 4 4)
    by (split; [reflexivity | repeat constructor]).
  assert (HG : has_shape (f64_standard_normal 4 3) 4 3)
    by (split; [reflexivity | repeat constructor]).
  split; [exact HA|]. split; [exact HG|].
  apply (sketch_krylov_width 0 HA HG). lia.
Defined.

Lemma sketch_power_width_witness :
  has_shape four_points_centered 4 4
  /\ has_shape (f64_standard_normal 4 3) 4 3
  /\ has_shape (sketch four_points_centered (f64_standard_normal 4 3) true 3)
       4 3
  /\ sketch four_points_centered (f64_standard_normal 4 3) true 3
     = Nat.iter (Z.to_nat 3)
         (fun H => dot four_points_centered (dot four_points_centered H))
         (dot four_points_centered (f64_standard_normal 4 3)).
Proof.
  assert (HA : has_shape four_points_centered 4 4)
    by (split; [reflexivity | repeat constructor]).
  assert (HG : has_shape (f64_standard_normal 4 3) 4 3)
    by (split; [reflexivity | repeat constructor]).
  split; [exact HA|]. split; [exact HG|].
  apply (sketch_power_width 3 HA HG). lia.
Defined.

Lemma fsvd_output_shape_witness :
  has_shape (f64_zeros 3 3) 3 3
  /\ (0 <= 2)%Z
  /\ fsvd_shapes_fit (f64_zeros 3 3) 2 false 1
  /\ exists S U,
       outcome (_fsvd (f64_zeros 3 3) 2 false 1) = inr (S, U)
       /\ length S = Nat.min (Z.to_nat 2) 3
       /\ has_shape U 3 (Nat.min (Z.to_nat 2) 3).
Proof.
  assert (HA : has_shape (f64_zeros 3 3) 3 3)
    by (split; [reflexivity | repeat constructor]).
  assert (Hd : (0 <= 2)%Z) by lia.
  assert (Hn : 0 < 3) by lia.
  assert (Hfit : fsvd_shapes_fit (f64_zeros 3 3) 2 false 1).
  { unfold fsvd_shapes_fit, has_shape. cbv zeta.
    repeat split; vm_compute; repeat constructor. }
  split; [exact HA|]. split; [exact Hd|]. split; [exact Hfit|].
  exact (fsvd_output_shape HA Hn Hd Hfit).
Defined.

Lemma pcoa_returns_iff_axes_fit_witness :
  decomposition four_points "eigh" (Some 3%Z)
  = Some (four_points_eigvals, four_points_eigvecs,
          "Principal Coordinate Analysis")
  /\ has_shape four_points_eigvecs (length (dm_ids four_points))
       (length four_points_eigvals)
  /\ ((exists res, outcome (pcoa four_points "eigh" (Some 3%Z) false)
                   = inr res)
      <-> length four_points_eigvals = Z.to_nat 3)
  /\ (length four_points_eigvals <> Z.to_nat 3 ->
      outcome (pcoa four_points "eigh" (Some 3%Z) false)
      = inl ValueError_length_mismatch).
Proof.
  assert (Hd : decomposition four_points "eigh" (Some 3%Z)
               = Some (four_points_eigvals, four_points_eigvecs,
                       "Principal Coordinate Analysis"))
    by (vm_compute; reflexivity).
  assert (Hs : has_shape four_points_eigvecs (length (dm_ids four_points))
                 (length four_points_eigvals))
    by (split; [reflexivity | repeat constructor]).
  split; [exact Hd|]. split; [exact Hs|].
  exact (pcoa_returns_iff_axes_fit four_points "eigh" (Some 3%Z) false
           Hd Hs).
Defined.

Lemma result_labels_witness :
  exists res,
    outcome (pcoa four_points "eigh" None false) = inr res
    /\ s_index (eigvals res) = axis_labels 4
    /\ df_columns (samples res) = axis_labels 4
    /\ s_index (proportion_explained res) = axis_labels 4
    /\ df_index (samples res) = dm_ids four_points
    /\ length (axis_labels 4) = Z.to_nat 4
    /\ NoDup (axis_labels 4).
Proof.
  assert (Hd : decomposition four_points "eigh" None
               = Some (four_points_eigvals, four_points_eigvecs,
                       "Principal Coordinate Analysis"))
    by (vm_compute; reflexivity).
  destruct (outcome (pcoa four_points "eigh" None false)) as [e|res] eqn:Hr;
    [vm_compute in Hr; discriminate|].
  exists res. split; [reflexivity|].
  exact (result_labels four_points "eigh" None false Hd Hr).
Defined.

Lemma pcoa_fsvd_axes_witness :
  let dm := coincident ["a"; "b"; "c"] in
  DistanceMatrix_valid dm = true
  /\ has_shape (center_distance_matrix_optimized (dm_data dm)) 3 3
  /\ length (dm_ids dm) = 3
  /\ (0 <= 2 <= Z.of_nat 3)%Z
  /\ fsvd_shapes_fit (center_distance_matrix_optimized (dm_data dm)) 2 false 1
  /\ exists res,
       outcome (pcoa dm "fsvd" (Some 2%Z) false) = inr res
       /\ length (s_values (eigvals res)) = Z.to_nat 2
       /\ has_shape (df_values (samples res)) 3 (Z.to_nat 2)
       /\ length (s_values (proportion_explained res)) = Z.to_nat 2.
Proof.
  intros dm.
  assert (Hv : DistanceMatrix_valid dm = true) by (vm_compute; reflexivity).
  assert (HA : has_shape (center_distance_matrix_optimized (dm_data dm)) 3 3)
    by (split; [reflexivity | vm_compute; repeat constructor]).
  assert (Hn : 0 < 3) by lia.
  assert (Hi : length (dm_ids dm) = 3) by reflexivity.
  assert (Hd : (0 <= 2 <= Z.of_nat 3)%Z) by (simpl; lia).
  assert (Hfit : fsvd_shapes_fit
                   (center_distance_matrix_optimized (dm_data dm)) 2 false 1).
  { unfold fsvd_shapes_fit, has_shape. cbv zeta.
    repeat split; vm_compute; repeat constructor. }
  split; [exact Hv|]. split; [exact HA|]. split; [exact Hi|].
  split; [exact Hd|]. split; [exact Hfit|].
  exact (pcoa_fsvd_axes dm false Hv HA Hn Hi Hd Hfit).
Defined.

Lemma pcoa_fsvd_dimension_above_n_witness :
  let dm := coincident ["a"; "b"; "c"] in
  DistanceMatrix_valid dm = true
  /\ has_shape (center_distance_matrix_optimized (dm_data dm)) 3 3
  /\ (Z.of_nat 3 < 5)%Z
  /\ fsvd_shapes_fit (center_distance_matrix_optimized (dm_data dm)) 5 false 1
  /\ outcome (pcoa dm "fsvd" (Some 5%Z) false)
     = inl ValueError_length_mismatch
  /\ incl [EvCenter; EvStandardNormal; EvQR; EvSVD]
       (trace (pcoa dm "fsvd" (Some 5%Z) false)).
Proof.
  intros dm.
  assert (Hv : DistanceMatrix_valid dm = true) by (vm_compute; reflexivity).
  assert (HA : has_shape (center_distance_matrix_optimized (dm_data dm)) 3 3)
    by (split; [reflexivity | vm_compute; repeat constructor]).
  assert (Hn : 0 < 3) by lia.
  assert (Hd : (Z.of_nat 3 < 5)%Z) by (simpl; lia).
  assert (Hfit : fsvd_shapes_fit
                   (center_distance_matrix_optimized (dm_data dm)) 5 false 1).
  { unfold fsvd_shapes_fit, has_shape. cbv zeta.
    repeat split; vm_compute; repeat constructor. }
  split; [exact Hv|]. split; [exact HA|]. split; [exact Hd|].
  split; [exact Hfit|].
  exact (pcoa_fsvd_dimension_above_n dm false Hv HA Hn Hd Hfit).
Defined.

Lemma pcoa_fsvd_never_warns_witness :
  let dm := coincident ["a"; "b"; "c"] in
  let A := center_distance_matrix_optimized (dm_data dm) in
  (forall s, In s (slice_upto 2 (fsvd_St A 2 false 1)) ->
             fltb (fmul s s) fzero = false)
  /\ fltb (fzero : float) fzero = false
  /\ forall lo hi, ~ In (EvWarn lo hi) (trace (pcoa dm "fsvd" (Some 2%Z) false)).
Proof.
  intros dm A.
  assert (Hsq : forall s, In s (slice_upto 2 (fsvd_St A 2 false 1)) ->
                          fltb (fmul s s) fzero = false).
  { intros s Hs. vm_compute in Hs.
    repeat (destruct Hs as [<-|Hs]; [vm_compute; reflexivity|]).
    destruct Hs. }
  assert (Hz : fltb (fzero : float) fzero = false)
    by (vm_compute; reflexivity).
  split; [exact Hsq|]. split; [exact Hz|].
  exact (pcoa_fsvd_never_warns dm (Some 2%Z) false Hsq Hz).
Defined.

Lemma returned_eigvals_are_clamped_witness :
  exists res,
    outcome (pcoa four_points "eigh" None false) = inr res
    /\ ordered_on (fzero :: four_points_eigvals)
    /\ s_values (eigvals res)
       = map (fun x => if fleb fzero x then x else fzero)
           (fst (sort_descending (snap_close_to_zero four_points_eigvals)
                   four_points_eigvecs))
    /\ Permutation (s_values (eigvals res))
         (map (fun x => if fleb fzero x then x else fzero)
            (snap_close_to_zero four_points_eigvals)).
Proof.
  assert (Hd : decomposition four_points "eigh" None
               = Some (four_points_eigvals, four_points_eigvecs,
                       "Principal Coordinate Analysis"))
    by (vm_compute; reflexivity).
  destruct (outcome (pcoa four_points "eigh" None false)) as [e|res] eqn:Hr;
    [vm_compute in Hr; discriminate|].
  exists res. split; [reflexivity|].
  assert (Ho : ordered_on (fzero :: four_points_eigvals))
    by (apply ordered_onb_sound; vm_compute; reflexivity).
  split; [exact Ho|].
  exact (returned_eigvals_are_clamped four_points "eigh" None false
           Hd Hr Ho).
Defined.

Lemma warning_iff_axis_zeroed_witness :
  decomposition four_points "eigh" None
  = Some (four_points_eigvals, four_points_eigvecs,
          "Principal Coordinate Analysis")
  /\ (forall x, In x (snap_close_to_zero four_points_eigvals) ->
                fltb x fzero = negb (fleb fzero x))
  /\ ((exists lo hi,
         In (EvWarn lo hi) (trace (pcoa four_points "eigh" None false)))
      <-> num_positive
            (fst (sort_descending (snap_close_to_zero four_points_eigvals)
                    four_points_eigvecs))
          < length four_points_eigvals).
Proof.
  assert (Hd : decomposition four_points "eigh" None
               = Some (four_points_eigvals, four_points_eigvecs,
                       "Principal Coordinate Analysis"))
    by (vm_compute; reflexivity).
  assert (Hc : forall x, In x (snap_close_to_zero four_points_eigvals) ->
                         fltb x fzero = negb (fleb fzero x)).
  { intros x Hx. vm_compute in Hx.
    repeat (destruct Hx as [<-|Hx]; [vm_compute; reflexivity|]).
    destruct Hx. }
  split; [exact Hd|]. split; [exact Hc|].
  exact (warning_iff_axis_zeroed four_points "eigh" None false Hd Hc).
Defined.

Lemma exact_path_ignores_generator_witness :
  @DistanceMatrix_valid float Backend_float four_points
  = @DistanceMatrix_valid float Backend_float_redrawn four_points
  /\ @standard_normal float Backend_float 4 3
     <> @standard_normal float Backend_float_redrawn 4 3
  /\ @pcoa float Scalar_float Backend_float four_points "eigh" None true
     = @pcoa float Scalar_float Backend_float_redrawn four_points "eigh"
         None true.
Proof.
  assert (Hv : @DistanceMatrix_valid float Backend_float four_points
               = @DistanceMatrix_valid float Backend_float_redrawn
                   four_points) by reflexivity.
  assert (Hc : @center_distance_matrix_optimized float Backend_float
                 (dm_data four_points)
               = @center_distance_matrix_optimized float
                   Backend_float_redrawn (dm_data four_points))
    by reflexivity.
  assert (He : @eigh float Backend_float
                 (@center_distance_matrix_optimized float Backend_float
                    (dm_data four_points))
               = @eigh float Backend_float_redrawn
                   (@center_distance_matrix_optimized float
                      Backend_float_redrawn (dm_data four_points)))
    by reflexivity.
  split; [exact Hv|]. split; [vm_compute; discriminate|].
  exact (exact_path_ignores_generator Backend_float Backend_float_redrawn
           four_points None true Hv Hc He).
Defined.
